(** * cling: the interactive input validator (InputValidator.cpp)

    A shallow embedding of [InputValidator::validate], [InputValidator::reset],
    [InputValidator::inBlockComment] and of the two static helpers
    [findNestedBlockComments] and [unwindTokens], followed by the properties
    of the bracket / block-comment state machine.

    Conventions of the embedding:
    - [int] values (token kinds, the entries of [m_ParenStack], the local
      [commentTok]) are [Z];
    - a [const char*] into the line is a [nat] offset into the line; reading
      at or past the end of the line reads the terminating NUL;
    - [std::deque<int> m_ParenStack] is a [list Z] whose head is [back()]:
      [push_back] is cons, [pop_back] is [tl];
    - a failed [assert] is the outcome [AssertionFailed]. *)

From Stdlib Require Import ZArith List String Ascii Bool Lia.
Import ListNotations.
Local Open Scope Z_scope.

(** ** Tokens *)

Module tok.

(** Modelled from the spec: the enumeration [tok::TokenKind] of MetaLexer.h,
    which is not among the sources.  The six bracket kinds come first, the
    openers at even ordinals and each closer at its opener + 1; the two
    literal starts follow; the validator further tells apart [slash],
    [asterik], [hash] and [eof]; every other punctuator is [other]. *)
Inductive TokenKind : Set :=
| l_square | r_square
| l_paren | r_paren
| l_brace | r_brace
| stringlit | charlit
| slash | hash | asterik
| eof
| other.

(** The cast [(int)Tok.getKind()]. *)
Definition to_int (k : TokenKind) : Z :=
  match k with
  | l_square => 0 | r_square => 1
  | l_paren => 2 | r_paren => 3
  | l_brace => 4 | r_brace => 5
  | stringlit => 6 | charlit => 7
  | slash => 8 | hash => 9 | asterik => 10
  | eof => 11
  | other => 12
  end.

Definition eqb (a b : TokenKind) : bool := to_int a =? to_int b.

End tok.

(** Only the kind of a token is looked at by the validator. *)
Record Token : Set := { getKind : tok.TokenKind }.

Definition isNot (T : Token) (k : tok.TokenKind) : bool :=
  negb (tok.eqb (getKind T) k).

(** The line as the C string behind [line.data()]. *)
Definition NUL : ascii := "000"%char.

Definition charAt (line : string) (pos : nat) : ascii :=
  match String.get pos line with
  | Some c => c
  | None => NUL
  end.

(** ** The lexer the validator drives

    MetaLexer.cpp is not among the sources: the validator is embedded over
    any lexer with the two static entry points it calls.  Each takes the line
    and the cursor and gives back the advanced cursor and the token.  A
    token other than [eof] was read from the line, so the cursor moved
    forward and is still inside the line. *)
Class Lexer : Type := {
  LexPunctuatorAndAdvance : string -> nat -> nat * Token;
  LexQuotedStringAndAdvance : string -> nat -> Token -> nat * Token;
  LexPunctuator_advances : forall line curPos,
    getKind (snd (LexPunctuatorAndAdvance line curPos)) <> tok.eof ->
    (curPos < fst (LexPunctuatorAndAdvance line curPos) <= String.length line)%nat;
  LexQuotedString_advances : forall line curPos T,
    getKind (snd (LexQuotedStringAndAdvance line curPos T)) <> tok.eof ->
    (curPos <= fst (LexQuotedStringAndAdvance line curPos T) <= String.length line)%nat
}.

(** ** Outcomes *)

Inductive outcome (A : Type) : Type :=
| Ok (a : A)
| AssertionFailed (msg : string)
| OutOfFuel.
Arguments Ok {A} a.
Arguments AssertionFailed {A} msg.
Arguments OutOfFuel {A}.

Inductive ValidationResult : Set := kIncomplete | kComplete | kMismatch.

Definition ValidationResult_eqb (a b : ValidationResult) : bool :=
  match a, b with
  | kIncomplete, kIncomplete | kComplete, kComplete | kMismatch, kMismatch => true
  | _, _ => false
  end.

(** ** The validator's state *)

Record InputValidator : Type := {
  m_Input : string;
  m_ParenStack : list Z
}.

(** A newly constructed validator. *)
Definition fresh : InputValidator :=
  {| m_Input := EmptyString; m_ParenStack := [] |}.

Definition contains (queue : list Z) (t : Z) : bool :=
  existsb (Z.eqb t) queue.

Definition inBlockComment (v : InputValidator) : bool :=
  contains (m_ParenStack v) (tok.to_int tok.slash).

(** ** findNestedBlockComments *)

Definition char_code (c : ascii) : Z := Z.of_nat (nat_of_ascii c).

(** The inner [while (endPos > startPos)] loop, [n] being
    [endPos - startPos]. *)
Fixpoint scanBackward (line : string) (startPos n : nat) (commentTok : Z) : Z :=
  match n with
  | O => 0
  | S n' =>
    let endPos := (startPos + n)%nat in
    let c := charAt line endPos in
    if (c =? "*")%char then
      if commentTok =? char_code "*" then -1
      else scanBackward line startPos n' (char_code "/")
    else if (c =? "/")%char then
      if commentTok =? char_code "/" then 1
      else scanBackward line startPos n' (char_code "*")
    else scanBackward line startPos n' 0
  end.

(** The outer [while (startPos < endPos)] loop, [n] being
    [endPos - startPos]. *)
Fixpoint scanForward (line : string) (startPos n : nat) (commentTok : Z) : Z :=
  match n with
  | O => 0
  | S n' =>
    if (charAt line startPos =? "/")%char then
      if commentTok + 1 =? 2 then scanBackward line startPos n (commentTok + 1)
      else scanForward line (S startPos) n' (commentTok + 1)
    else
      scanForward line (S startPos) n' (if commentTok =? 0 then commentTok else 0)
  end.

Definition findNestedBlockComments (line : string) (startPos endPos : nat) : Z :=
  scanForward line startPos (endPos - startPos) 0.

(** ** unwindTokens

    [None] is a failed "Token stack is empty!" assertion. *)
Fixpoint unwindTokens (queue : list Z) (t : Z) : option (list Z) :=
  match queue with
  | [] => None
  | back :: rest => if back =? t then Some rest else unwindTokens rest t
  end.

(** ** InputValidator::validate *)

(** The locals of [validate] that live across iterations of its loop,
    together with the member [m_ParenStack]. *)
Record Locals : Type := {
  Res : ValidationResult;
  curPos : nat;
  multilineComment : bool;
  commentTok : Z;
  ParenStack : list Z
}.

(** How an iteration of the [do ... while] body ends: it reaches the loop
    condition (by falling off its end or by [continue]) with the current
    token, or it leaves the loop by [break]. *)
Inductive Exit : Type :=
| ToCondition (Tok : Token)
| Break.

Definition back_or (queue : list Z) (d : Z) : Z :=
  match queue with
  | [] => d
  | back :: _ => back
  end.

Definition is_bracket (kind : Z) : bool :=
  (tok.to_int tok.l_square <=? kind) && (kind <=? tok.to_int tok.r_brace).

Definition is_literal (kind : Z) : bool :=
  (tok.to_int tok.stringlit <=? kind) && (kind <=? tok.to_int tok.charlit).

Section Validate.

Context {L : Lexer}.

(** The bracket and literal part of the body (lines 155-173). *)
Definition brackets (line : string) (Tok : Token) (kind : Z) (s : Locals)
  : outcome (Exit * Locals) :=
  if is_bracket kind then
    if negb (Z.rem kind 2 =? 0) then
      let prev := back_or (ParenStack s) (-1) in
      if negb (prev =? kind - 1) then
        if multilineComment s then Ok (ToCondition Tok, s)
        else
          Ok (Break,
              {| Res := kMismatch; curPos := curPos s;
                 multilineComment := multilineComment s;
                 commentTok := commentTok s; ParenStack := ParenStack s |})
      else
        Ok (ToCondition Tok,
            {| Res := Res s; curPos := curPos s;
               multilineComment := multilineComment s;
               commentTok := commentTok s; ParenStack := tl (ParenStack s) |})
    else
      Ok (ToCondition Tok,
          {| Res := Res s; curPos := curPos s;
             multilineComment := multilineComment s;
             commentTok := commentTok s; ParenStack := kind :: ParenStack s |})
  else if is_literal kind then
    let (curPos', Tok') := LexQuotedStringAndAdvance line (curPos s) Tok in
    Ok (ToCondition Tok',
        {| Res := Res s; curPos := curPos';
           multilineComment := multilineComment s;
           commentTok := commentTok s; ParenStack := ParenStack s |})
  else Ok (ToCondition Tok, s).

(** One iteration of the body of the [do ... while] loop. *)
Definition body (line : string) (s0 : Locals) : outcome (Exit * Locals) :=
  let prevStart := curPos s0 in
  let (curPos1, Tok) := LexPunctuatorAndAdvance line (curPos s0) in
  let kind := tok.to_int (getKind Tok) in
  let s :=
    {| Res := Res s0; curPos := curPos1;
       multilineComment := multilineComment s0;
       commentTok := commentTok s0; ParenStack := ParenStack s0 |} in
  if kind =? commentTok s then
    if kind =? tok.to_int tok.slash then
      if multilineComment s then
        match unwindTokens (ParenStack s) (tok.to_int tok.slash) with
        | None => AssertionFailed "Token stack is empty!"
        | Some queue =>
          Ok (ToCondition Tok,
              {| Res := Res s; curPos := curPos1;
                 multilineComment := false;
                 commentTok := tok.to_int tok.slash; ParenStack := queue |})
        end
      else
        Ok (ToCondition Tok,
            {| Res := Res s; curPos := curPos1;
               multilineComment := false;
               commentTok := tok.to_int tok.asterik;
               ParenStack := ParenStack s |})
    else
      if negb (commentTok s =? tok.to_int tok.asterik) then
        AssertionFailed "Comment token not / or *"
      else if negb (multilineComment s) then
        Ok (ToCondition Tok,
            {| Res := Res s; curPos := curPos1;
               multilineComment := true;
               commentTok := commentTok s;
               ParenStack := tok.to_int tok.slash :: ParenStack s |})
      else
        Ok (ToCondition Tok,
            {| Res := Res s; curPos := curPos1;
               multilineComment := true;
               commentTok := tok.to_int tok.slash;
               ParenStack := ParenStack s |})
  else
    if multilineComment s && (kind =? tok.to_int tok.eof) then
      let nested := findNestedBlockComments line prevStart curPos1 in
      if nested =? -1 then
        match unwindTokens (ParenStack s) (tok.to_int tok.slash) with
        | None => AssertionFailed "Token stack is empty!"
        | Some queue =>
          Ok (Break,
              {| Res := Res s; curPos := curPos1;
                 multilineComment := true;
                 commentTok := commentTok s; ParenStack := queue |})
        end
      else if (nested =? 1) || (nested =? 0) then Ok (Break, s)
      else AssertionFailed "Nested block comment count"
    else
      let s' :=
        if multilineComment s && (commentTok s =? tok.to_int tok.slash)
           && negb (kind =? tok.to_int tok.asterik)
        then
          {| Res := Res s; curPos := curPos1;
             multilineComment := multilineComment s;
             commentTok := tok.to_int tok.asterik;
             ParenStack := ParenStack s |}
        else s in
      brackets line Tok kind s'.

(** The [do ... while (Tok.isNot(tok::eof))] loop. *)
Fixpoint loop (fuel : nat) (line : string) (s : Locals) : outcome Locals :=
  match fuel with
  | O => OutOfFuel
  | S fuel' =>
    match body line s with
    | Ok (Break, s') => Ok s'
    | Ok (ToCondition Tok, s') =>
      if isNot Tok tok.eof then loop fuel' line s' else Ok s'
    | AssertionFailed msg => AssertionFailed msg
    | OutOfFuel => OutOfFuel
    end
  end.

(** The locals on entry to the loop (lines 71-76). *)
Definition entry (v : InputValidator) : Locals :=
  let multilineComment := inBlockComment v in
  {| Res := kComplete; curPos := O;
     multilineComment := multilineComment;
     commentTok :=
       if multilineComment then tok.to_int tok.asterik
       else tok.to_int tok.slash;
     ParenStack := m_ParenStack v |}.

(** The classification after the loop (lines 178-179). *)
Definition classify (s : Locals) : ValidationResult :=
  if negb (Nat.eqb (List.length (ParenStack s)) 0)
     && negb (ValidationResult_eqb (Res s) kMismatch)
  then kIncomplete else Res s.

Definition newline : string := String "010"%char EmptyString.
Definition escaped_newline : string := String "\"%char (String "n"%char EmptyString).

(** The join of the line to the logical buffer (lines 181-191). *)
Definition join (Input : string) (queue : list Z) (line : string) : string :=
  (if negb (Nat.eqb (String.length Input) 0) then
     if negb (Nat.eqb (List.length queue) 0)
        && ((back_or queue 0 =? tok.to_int tok.stringlit)
            || (back_or queue 0 =? tok.to_int tok.charlit))
     then Input ++ escaped_newline
     else Input ++ newline
   else EmptyString) ++ line.

(** What [validate] does once the loop is over. *)
Definition finish (v : InputValidator) (line : string) (s : Locals)
  : ValidationResult * InputValidator :=
  (classify s,
   {| m_Input := join (m_Input v) (ParenStack s) line;
      m_ParenStack := ParenStack s |}).

(** An iteration that goes on consumes a character of the line, so the
    loop is over after at most [length line + 1] iterations. *)
Definition validate (v : InputValidator) (line : string)
  : outcome (ValidationResult * InputValidator) :=
  match loop (S (String.length line)) line (entry v) with
  | Ok s => Ok (finish v line s)
  | AssertionFailed msg => AssertionFailed msg
  | OutOfFuel => OutOfFuel
  end.

End Validate.

(** ** InputValidator::reset *)

Definition reset (v : InputValidator) : InputValidator :=
  {| m_Input := EmptyString; m_ParenStack := [] |}.

(** ** Runs of the loop *)

Section Runs.

Context {L : Lexer}.

(** An iteration of the loop after which the loop goes on. *)
Definition step (line : string) (s s' : Locals) : Prop :=
  exists Tok, body line s = Ok (ToCondition Tok, s') /\ isNot Tok tok.eof = true.

(** [scans line s0 s]: the loop, entered with [s0], is at the head of an
    iteration with locals [s]. *)
Inductive scans (line : string) (s0 : Locals) : Locals -> Prop :=
| scans_here : scans line s0 s0
| scans_next s s' : scans line s0 s -> step line s s' -> scans line s0 s'.

(** The token the iteration beginning at [s] reads. *)
Definition next_kind (line : string) (s : Locals) : tok.TokenKind :=
  getKind (snd (LexPunctuatorAndAdvance line (curPos s))).

Definition closing (k : tok.TokenKind) : bool :=
  match k with
  | tok.r_square | tok.r_paren | tok.r_brace => true
  | _ => false
  end.

Definition opening (k : tok.TokenKind) : bool :=
  match k with
  | tok.l_square | tok.l_paren | tok.l_brace => true
  | _ => false
  end.

(** The opener a closing bracket has to meet on top of the stack. *)
Definition opener_of (k : tok.TokenKind) : tok.TokenKind :=
  match k with
  | tok.r_square => tok.l_square
  | tok.r_paren => tok.l_paren
  | tok.r_brace => tok.l_brace
  | _ => k
  end.

(** The top of the stack is the opener of the closing bracket [k]. *)
Definition top_matches (queue : list Z) (k : tok.TokenKind) : bool :=
  match queue with
  | [] => false
  | back :: _ => back =? tok.to_int (opener_of k)
  end.

(** The iteration beginning at [s] reads a closing bracket outside a block
    comment, and the stack is empty or its top is not the bracket's
    opener. *)
Definition mismatch_detected (line : string) (s : Locals) : Prop :=
  closing (next_kind line s) = true /\
  multilineComment s = false /\
  top_matches (ParenStack s) (next_kind line s) = false.

(** The iteration beginning at [s] calls [unwindTokens]: on a confirmed
    close of a comment (line 108) or when the recovery at the end of the
    line reports the comment closed (line 139). *)
Definition calls_unwindTokens (line : string) (s : Locals) : bool :=
  let (curPos1, Tok) := LexPunctuatorAndAdvance line (curPos s) in
  let kind := tok.to_int (getKind Tok) in
  if kind =? commentTok s then
    (kind =? tok.to_int tok.slash) && multilineComment s
  else
    multilineComment s && (kind =? tok.to_int tok.eof)
    && (findNestedBlockComments line (curPos s) curPos1 =? -1).

(** What holds of the locals at the head of every iteration. *)
Definition consistent (s : Locals) : Prop :=
  (multilineComment s = true ->
   contains (ParenStack s) (tok.to_int tok.slash) = true) /\
  (commentTok s = tok.to_int tok.slash \/ commentTok s = tok.to_int tok.asterik).

(** The kinds that are pushed on the stack: the three openers and the
    in-block-comment marker. *)
Definition marker (k : Z) : Prop :=
  k = tok.to_int tok.l_square \/ k = tok.to_int tok.l_paren \/
  k = tok.to_int tok.l_brace \/ k = tok.to_int tok.slash.

(** What a bracket read inside a block comment does to the entries above
    the in-block-comment marker. *)
Definition above_after (k : tok.TokenKind) (above : list Z) : list Z :=
  if opening k then tok.to_int k :: above
  else if top_matches above k then tl above
  else above.

(** The kinds of the tokens [LexPunctuatorAndAdvance] gives from the cursor
    on, up to the end of the line. *)
Fixpoint tokens (fuel : nat) (line : string) (pos : nat) : list tok.TokenKind :=
  match fuel with
  | O => []
  | S fuel' =>
    let (pos', T) := LexPunctuatorAndAdvance line pos in
    match getKind T with
    | tok.eof => []
    | k => k :: tokens fuel' line pos'
    end
  end.

(** A token that is a bracket or that the validator passes over: neither a
    slash, nor an asterisk, nor the start of a literal. *)
Definition plain (k : tok.TokenKind) : bool :=
  match k with
  | tok.slash | tok.asterik | tok.stringlit | tok.charlit | tok.eof => false
  | _ => true
  end.

Definition closer_of (k : tok.TokenKind) : tok.TokenKind :=
  match k with
  | tok.l_square => tok.r_square
  | tok.l_paren => tok.r_paren
  | tok.l_brace => tok.r_brace
  | _ => k
  end.

(** Balanced brackets, with tokens that are not brackets in between. *)
Inductive balanced : list tok.TokenKind -> Prop :=
| balanced_nil : balanced []
| balanced_skip k ts :
    opening k || closing k = false -> balanced ts -> balanced (k :: ts)
| balanced_wrap o ts1 ts2 :
    opening o = true -> balanced ts1 -> balanced ts2 ->
    balanced (o :: ts1 ++ closer_of o :: ts2).

(** The stack machine of plain bracket matching. *)
Fixpoint run_stack (ts : list tok.TokenKind) (queue : list Z) : option (list Z) :=
  match ts with
  | [] => Some queue
  | k :: ts' =>
    if opening k then run_stack ts' (tok.to_int k :: queue)
    else if closing k then
      if top_matches queue k then run_stack ts' (tl queue) else None
    else run_stack ts' queue
  end.

(** Feeding lines one after the other to the same validator. *)
Fixpoint feed (v : InputValidator) (lines : list string) : outcome InputValidator :=
  match lines with
  | [] => Ok v
  | line :: lines' =>
    match validate v line with
    | Ok (_, v') => feed v' lines'
    | AssertionFailed msg => AssertionFailed msg
    | OutOfFuel => OutOfFuel
    end
  end.

End Runs.

(** The double quote, for lines with string literals. *)
Definition dquote : string := String "034"%char EmptyString.

(** ** A lexer to run the validator on lines of text *)

Module MetaLexer.

(** Modelled from the spec: [MetaLexer::LexPunctuatorAndAdvance] and
    [MetaLexer::LexQuotedStringAndAdvance] (MetaLexer.cpp is not among the
    sources).  The first advances past one group of non-punctuator
    characters (identifiers, numbers, blanks) and the punctuator that
    ends it, and gives that punctuator's token, or [eof] at the end of
    the line; a double slash starts a comment that runs to the end of the
    line (it is what [findNestedBlockComments] looks for).  The second is
    called with the cursor behind an opening quote and scans past the
    literal, its closing quote included when that is on the line; at the
    end of the line the token becomes [eof]. *)
Definition punctuators : list (ascii * tok.TokenKind) :=
  [ ("["%char, tok.l_square); ("]"%char, tok.r_square);
    ("("%char, tok.l_paren); (")"%char, tok.r_paren);
    ("{"%char, tok.l_brace); ("}"%char, tok.r_brace);
    ("034"%char, tok.stringlit); ("'"%char, tok.charlit);
    ("/"%char, tok.slash); ("#"%char, tok.hash); ("*"%char, tok.asterik);
    (","%char, tok.other); ("."%char, tok.other); ("!"%char, tok.other);
    ("?"%char, tok.other); ("\"%char, tok.other); ("<"%char, tok.other);
    (">"%char, tok.other); ("&"%char, tok.other); ("@"%char, tok.other);
    (";"%char, tok.other) ].

Definition LexPunctuator (c : ascii) : option tok.TokenKind :=
  option_map snd (find (fun p => (fst p =? c)%char) punctuators).

Fixpoint scan (fuel : nat) (line : string) (curPos : nat) : nat * Token :=
  match fuel with
  | O => (curPos, {| getKind := tok.eof |})
  | S fuel' =>
    let c := charAt line curPos in
    if ((c =? "/") && (charAt line (S curPos) =? "/"))%char then
      (Nat.max curPos (String.length line), {| getKind := tok.eof |})
    else if (c =? NUL)%char then (curPos, {| getKind := tok.eof |})
    else
      match LexPunctuator c with
      | Some k => (S curPos, {| getKind := k |})
      | None => scan fuel' line (S curPos)
      end
  end.

Definition LexPunctuatorAndAdvance (line : string) (curPos : nat) : nat * Token :=
  scan (S (String.length line - curPos)) line curPos.

Fixpoint scanQuoted (fuel : nat) (line : string) (quote : ascii)
         (kind : tok.TokenKind) (curPos : nat) : nat * Token :=
  match fuel with
  | O => (curPos, {| getKind := tok.eof |})
  | S fuel' =>
    let c := charAt line curPos in
    if (c =? "\")%char then scanQuoted fuel' line quote kind (curPos + 2)
    else if (c =? NUL)%char then (curPos, {| getKind := tok.eof |})
    else if (c =? quote)%char then (S curPos, {| getKind := kind |})
    else scanQuoted fuel' line quote kind (S curPos)
  end.

Definition LexQuotedStringAndAdvance (line : string) (curPos : nat) (T : Token)
  : nat * Token :=
  match getKind T with
  | tok.charlit =>
    scanQuoted (S (String.length line - curPos)) line "'"%char tok.charlit curPos
  | _ =>
    scanQuoted (S (String.length line - curPos)) line "034"%char tok.stringlit curPos
  end.

Lemma charAt_in_line line pos :
  charAt line pos <> NUL -> (pos < String.length line)%nat.
Proof.
  unfold charAt. revert pos.
  induction line as [|a line IH]; intros pos H; simpl in *.
  - destruct pos; congruence.
  - destruct pos as [|pos]; [lia|]. apply IH in H. lia.
Qed.

Lemma LexPunctuator_not_eof c k : LexPunctuator c = Some k -> k <> tok.eof.
Proof.
  unfold LexPunctuator. intros H.
  destruct (find _ punctuators) as [p|] eqn:F; [|discriminate].
  apply find_some in F. destruct F as [F _].
  injection H as <-.
  unfold punctuators in F. simpl in F.
  repeat (destruct F as [<-|F]; [simpl; discriminate|]).
  contradiction.
Qed.

Lemma scan_advances fuel line curPos :
  getKind (snd (scan fuel line curPos)) <> tok.eof ->
  (curPos < fst (scan fuel line curPos) <= String.length line)%nat.
Proof.
  revert curPos. induction fuel as [|fuel IH]; intros curPos; simpl.
  - congruence.
  - destruct ((charAt line curPos =? "/") && _)%char; simpl; [congruence|].
    destruct (charAt line curPos =? NUL)%char eqn:E; simpl; [congruence|].
    apply Ascii.eqb_neq in E. apply charAt_in_line in E.
    destruct (LexPunctuator (charAt line curPos)); simpl.
    + lia.
    + intros H. apply IH in H. lia.
Qed.

Lemma scanQuoted_advances fuel line quote kind curPos :
  getKind (snd (scanQuoted fuel line quote kind curPos)) <> tok.eof ->
  (curPos <= fst (scanQuoted fuel line quote kind curPos) <= String.length line)%nat.
Proof.
  revert curPos. induction fuel as [|fuel IH]; intros curPos; simpl.
  - congruence.
  - destruct (charAt line curPos =? "\")%char.
    { intros H. apply IH in H. lia. }
    destruct (charAt line curPos =? NUL)%char eqn:E; simpl; [congruence|].
    apply Ascii.eqb_neq in E. apply charAt_in_line in E.
    destruct (charAt line curPos =? quote)%char; simpl.
    + lia.
    + intros H. apply IH in H. lia.
Qed.

#[export] Instance lexer : Lexer.
Proof.
  refine (Build_Lexer LexPunctuatorAndAdvance LexQuotedStringAndAdvance _ _).
  - intros line curPos. apply scan_advances.
  - intros line curPos T. unfold LexQuotedStringAndAdvance.
    destruct (getKind T); apply scanQuoted_advances.
Defined.

End MetaLexer.


(** At most one in-block-comment marker on the stack. *)
Definition markers_once (queue : list Z) : Prop :=
  (count_occ Z.eq_dec queue (tok.to_int tok.slash) <= 1)%nat.

(** Two slashes in a row at [i] and [i + 1]. *)
Definition double_slash (line : string) (i : nat) : Prop :=
  charAt line i = "/"%char /\ charAt line (S i) = "/"%char.

(** The loop keeps [multilineComment] equal to the presence of the marker
    and keeps the marker single. *)
Definition in_step (s : Locals) : Prop :=
  multilineComment s = contains (ParenStack s) (tok.to_int tok.slash) /\
  markers_once (ParenStack s) /\
  (commentTok s = tok.to_int tok.slash \/ commentTok s = tok.to_int tok.asterik).

Section MoreRuns.
Context {L : Lexer}.

(** The lexer gives no slash and no asterisk anywhere on the line. *)
Definition no_comment_tokens (line : string) : Prop :=
  forall pos,
    getKind (snd (LexPunctuatorAndAdvance line pos)) <> tok.slash /\
    getKind (snd (LexPunctuatorAndAdvance line pos)) <> tok.asterik.

End MoreRuns.

(** ** Paths.cpp: include paths as command-line arguments *)

Module frontend.

(** clang's [frontend::IncludeDirGroup]: the groups the switch of
    [CopyIncludePaths] tells apart. *)
Inductive IncludeDirGroup : Set :=
| Quoted | Angled | IndexHeaderMap | System | ExternCSystem
| CSystem | CXXSystem | ObjCSystem | ObjCXXSystem | After.

Definition eqb (a b : IncludeDirGroup) : bool :=
  match a, b with
  | Quoted, Quoted | Angled, Angled | IndexHeaderMap, IndexHeaderMap
  | System, System | ExternCSystem, ExternCSystem | CSystem, CSystem
  | CXXSystem, CXXSystem | ObjCSystem, ObjCSystem
  | ObjCXXSystem, ObjCXXSystem | After, After => true
  | _, _ => false
  end.

End frontend.

(** The fields of clang's [HeaderSearchOptions::Entry] and
    [HeaderSearchOptions] that [CopyIncludePaths] reads. *)
Record Entry : Set := {
  Path : string;
  Group : frontend.IncludeDirGroup;
  IsFramework : bool
}.

Record HeaderSearchOptions : Set := {
  Sysroot : string;
  UserEntries : list Entry;
  ResourceDir : string;
  ModuleCachePath : string;
  UseStandardSystemIncludes : bool;
  UseStandardCXXIncludes : bool;
  UseLibcxx : bool;
  Verbose : bool
}.

(** A call that returns, or ends the program in [llvm::report_fatal_error]. *)
Inductive or_fatal (A : Type) : Type :=
| Returned (a : A)
| Fatal (msg : string).
Arguments Returned {A} a.
Arguments Fatal {A} msg.

Definition push_back {A : Type} (v : list A) (x : A) : list A := (v ++ [x])%list.

(** [if (c) v.push_back(x);] *)
Definition push_back_if {A : Type} (c : bool) (v : list A) (x : A) : list A :=
  if c then push_back v x else v.

Definition empty (s : string) : bool := Nat.eqb (String.length s) 0.

Section IncludePaths.
Local Open Scope string_scope.

(** The switch over [E.Group] (lines 36-84); [None] is [continue]. *)
Definition push_group_flags (E : Entry) (incpaths : list string)
           (withSystem withFlags : bool) : option (list string) :=
  match Group E with
  | frontend.After => Some (push_back_if withFlags incpaths "-idirafter")
  | frontend.Quoted => Some (push_back_if withFlags incpaths "-iquote")
  | frontend.System =>
    if negb withSystem then None
    else Some (push_back_if withFlags incpaths "-isystem")
  | frontend.IndexHeaderMap =>
    if negb withSystem then None
    else Some (push_back_if withFlags
                 (push_back_if withFlags incpaths "-index-header-map")
                 (if IsFramework E then "-F" else "-I"))
  | frontend.CSystem =>
    if negb withSystem then None
    else Some (push_back_if withFlags incpaths "-c-isystem")
  | frontend.ExternCSystem =>
    if negb withSystem then None
    else Some (push_back_if withFlags incpaths "-extern-c-isystem")
  | frontend.CXXSystem =>
    if negb withSystem then None
    else Some (push_back_if withFlags incpaths "-cxx-isystem")
  | frontend.ObjCSystem =>
    if negb withSystem then None
    else Some (push_back_if withFlags incpaths "-objc-isystem")
  | frontend.ObjCXXSystem =>
    if negb withSystem then None
    else Some (push_back_if withFlags incpaths "-objcxx-isystem")
  | frontend.Angled =>
    Some (push_back_if withFlags incpaths (if IsFramework E then "-F" else "-I"))
  end.

(** The loop over [Opts.UserEntries] (lines 32-86). *)
Fixpoint copy_user_entries (entries : list Entry) (incpaths : list string)
         (withSystem withFlags : bool) : or_fatal (list string) :=
  match entries with
  | [] => Returned incpaths
  | E :: entries' =>
    if IsFramework E && negb (frontend.eqb (Group E) frontend.Angled) then
      Fatal "Invalid option set!"
    else
      match push_group_flags E incpaths withSystem withFlags with
      | None => copy_user_entries entries' incpaths withSystem withFlags
      | Some incpaths' =>
        copy_user_entries entries' (push_back incpaths' (Path E))
                          withSystem withFlags
      end
  end.

(** What follows the loop (lines 88-103). *)
Definition copy_system_options (Opts : HeaderSearchOptions)
           (incpaths : list string) (withSystem withFlags : bool) : list string :=
  let incpaths :=
    if withSystem && negb (empty (ResourceDir Opts)) then
      push_back (push_back_if withFlags incpaths "-resource-dir") (ResourceDir Opts)
    else incpaths in
  let incpaths :=
    if withSystem && withFlags && negb (empty (ModuleCachePath Opts)) then
      push_back (push_back incpaths "-fmodule-cache-path") (ModuleCachePath Opts)
    else incpaths in
  let incpaths :=
    push_back_if (withSystem && withFlags && negb (UseStandardSystemIncludes Opts))
                 incpaths "-nostdinc" in
  let incpaths :=
    push_back_if (withSystem && withFlags && negb (UseStandardCXXIncludes Opts))
                 incpaths "-nostdinc++" in
  let incpaths :=
    push_back_if (withSystem && withFlags && UseLibcxx Opts)
                 incpaths "-stdlib=libc++" in
  push_back_if (withSystem && withFlags && Verbose Opts) incpaths "-v".

Definition CopyIncludePaths (Opts : HeaderSearchOptions) (incpaths : list string)
           (withSystem withFlags : bool) : or_fatal (list string) :=
  let incpaths :=
    if withFlags && negb (String.eqb (Sysroot Opts) "/") then
      push_back (push_back incpaths "-isysroot") (Sysroot Opts)
    else incpaths in
  match copy_user_entries (UserEntries Opts) incpaths withSystem withFlags with
  | Returned incpaths => Returned (copy_system_options Opts incpaths withSystem withFlags)
  | Fatal msg => Fatal msg
  end.

End IncludePaths.

(** An entry [CopyIncludePaths] ends the program on. *)
Definition invalid_entry (E : Entry) : bool :=
  IsFramework E && negb (frontend.eqb (Group E) frontend.Angled).

(** What one entry adds to the arguments. *)
Definition entry_arguments (E : Entry) (withSystem withFlags : bool) : list string :=
  match push_group_flags E [] withSystem withFlags with
  | None => []
  | Some flags => push_back flags (Path E)
  end.

(** The groups that are copied only with [withSystem]. *)
Definition system_group (g : frontend.IncludeDirGroup) : bool :=
  match g with
  | frontend.After | frontend.Quoted | frontend.Angled => false
  | _ => true
  end.

(** [sub] is [l] with some elements left out. *)
Inductive subsequence {A : Type} : list A -> list A -> Prop :=
| subsequence_nil : subsequence [] []
| subsequence_keep x sub l : subsequence sub l -> subsequence (x :: sub) (x :: l)
| subsequence_drop x sub l : subsequence sub l -> subsequence sub (x :: l).

(** ** Paths.cpp: SplitPaths *)

(** [s] without its first [n] characters. *)
Fixpoint drop (n : nat) (s : string) : string :=
  match n, s with
  | O, _ => s
  | S n', String _ s' => drop n' s'
  | S _, EmptyString => EmptyString
  end.

(** [llvm::StringRef::split(Separator)]: the parts before and behind the
    first occurrence of the separator; the whole string and the empty
    string when the separator does not occur. *)
Fixpoint split (Separator s : string) : string * string :=
  match s with
  | EmptyString => (EmptyString, EmptyString)
  | String c s' =>
    if String.prefix Separator s then (EmptyString, drop (String.length Separator) s)
    else let (LHS, RHS) := split Separator s' in (String c LHS, RHS)
  end.

Section SplitPaths.

(** [llvm::sys::fs::is_directory], the state of the file system. *)
Variable is_directory : string -> bool.

(** How the [for] loop of [SplitPaths] ends: by the [return false] of
    [EarlyOut] or by its condition. *)
Inductive SplitExit : Type :=
| EarlyReturn (Paths : list string)
| LoopDone (PathStr : string) (Paths : list string) (AllExisted : bool).

(** The [for] loop (lines 121-130). *)
Fixpoint SplitPaths_loop (fuel : nat) (PathStr : string) (Paths : list string)
         (AllExisted EarlyOut : bool) (Delim : string) : outcome SplitExit :=
  match fuel with
  | O => OutOfFuel
  | S fuel' =>
    let Split := split Delim PathStr in
    if empty (snd Split) then Ok (LoopDone PathStr Paths AllExisted)
    else if negb (is_directory (fst Split)) then
      if EarlyOut then Ok (EarlyReturn Paths)
      else SplitPaths_loop fuel' (snd Split) Paths false EarlyOut Delim
    else
      SplitPaths_loop fuel' (snd Split) (push_back Paths (fst Split))
                      AllExisted EarlyOut Delim
  end.

(** The returned flag and [Paths] on return. *)
Definition SplitPaths (PathStr : string) (Paths : list string)
           (EarlyOut : bool) (Delim : string) : outcome (bool * list string) :=
  match SplitPaths_loop (S (String.length PathStr)) PathStr Paths true EarlyOut Delim with
  | Ok (EarlyReturn Paths) => Ok (false, Paths)
  | Ok (LoopDone PathStr Paths AllExisted) =>
    if is_directory PathStr then Ok (AllExisted, push_back Paths PathStr)
    else Ok (false, Paths)
  | AssertionFailed msg => AssertionFailed msg
  | OutOfFuel => OutOfFuel
  end.

(** [Paths'] is [Paths] with directories appended. *)
Definition only_directories (Paths Paths' : list string) : Prop :=
  exists new, Paths' = Paths ++ new /\ Forall (fun p => is_directory p = true) new.

End SplitPaths.

(** The character [c] occurs in [s]. *)
Fixpoint occurs (c : ascii) (s : string) : bool :=
  match s with
  | EmptyString => false
  | String a s' => (a =? c)%char || occurs c s'
  end.

(** The pieces with the delimiter between them. *)
Fixpoint join_pieces (c : ascii) (pieces : list string) : string :=
  match pieces with
  | [] => EmptyString
  | [p] => p
  | p :: pieces' => (p ++ String c (join_pieces c pieces'))%string
  end.

(** ** PlatformPosix.cpp: the cache of valid addresses *)

Module Cache.

(** [struct Cache]: eight lines and the index of the line written next.
    Addresses are numbers, the null pointer is 0. *)
Record Cache : Set := {
  lines : list Z;
  mostRecent : nat
}.

Definition size : nat := 8.

(** [static Cache threadCache]: an object of static storage duration is
    zero-initialised before its constructor runs, and the constructor
    leaves [lines] alone; so all lines start as null pointers. *)
Definition threadCache : Cache :=
  {| lines := repeat 0 size; mostRecent := 0 |}.

Definition contains (C : Cache) (P : Z) : bool :=
  existsb (Z.eqb P) (lines C).

(** [lines[i] = P] *)
Fixpoint assign (l : list Z) (i : nat) (P : Z) : list Z :=
  match l, i with
  | [], _ => []
  | _ :: l', O => P :: l'
  | a :: l', S i' => a :: assign l' i' P
  end.

(** [push], as one thread runs it: the compare-and-exchange moves
    [mostRecent] on, the line it stood at receives [P]. *)
Definition push (C : Cache) (P : Z) : Cache :=
  let acquiredVal := mostRecent C in
  {| lines := assign (lines C) acquiredVal P;
     mostRecent := (acquiredVal + 1) mod size |}.

(** The cache after a number of pushes. *)
Definition pushes (C : Cache) (Ps : list Z) : Cache := fold_left push Ps C.

(** The lines from the one written next on: the oldest entry first. *)
Definition window (C : Cache) : list Z :=
  skipn (mostRecent C) (lines C) ++ firstn (mostRecent C) (lines C).

(** What a push does to the window. *)
Definition fifo (w : list Z) (P : Z) : list Z := tl w ++ [P].

Definition well_formed (C : Cache) : Prop :=
  List.length (lines C) = size /\ (mostRecent C < size)%nat.

End Cache.

(** What [write(fd, P, 1)] comes to: it wrote the byte, it failed with
    [EFAULT], or it failed otherwise. *)
Inductive WriteResult : Set := Wrote | Efault | OtherError.

Section IsMemoryValid.

(** The probe of an address by [write] to the null device. *)
Variable probe : Z -> WriteResult.

(** The answer and the cache afterwards. *)
Definition IsMemoryValid (currentCache : Cache.Cache) (P : Z)
  : outcome (bool * Cache.Cache) :=
  if Cache.contains currentCache P then Ok (true, currentCache)
  else
    match probe P with
    | Wrote => Ok (true, Cache.push currentCache P)
    | Efault => Ok (false, currentCache)
    | OtherError => AssertionFailed "unexpected write error at address"
    end.

End IsMemoryValid.

(** * Properties *)

(** ** The helpers *)

Lemma scanBackward_range line startPos n c :
  let r := scanBackward line startPos n c in r = -1 \/ r = 0 \/ r = 1.
Proof.
  revert c. induction n as [|n IH]; intros c; simpl; auto.
  destruct (charAt line _ =? "*")%char.
  - destruct (c =? _); [auto | apply IH].
  - destruct (charAt line _ =? "/")%char.
    + destruct (c =? _); [auto | apply IH].
    + apply IH.
Qed.

Lemma scanForward_range line startPos n c :
  let r := scanForward line startPos n c in r = -1 \/ r = 0 \/ r = 1.
Proof.
  revert startPos c. induction n as [|n IH]; intros startPos c; simpl; auto.
  destruct (charAt line startPos =? "/")%char.
  - destruct (c + 1 =? 2).
    + apply (scanBackward_range line startPos (S n)).
    + apply IH.
  - apply IH.
Qed.

Lemma findNestedBlockComments_range line startPos endPos :
  let r := findNestedBlockComments line startPos endPos in
  r = -1 \/ r = 0 \/ r = 1.
Proof. apply scanForward_range. Qed.

Lemma contains_In queue t : contains queue t = true <-> In t queue.
Proof.
  unfold contains. rewrite existsb_exists. split.
  - intros (x & Hin & E). apply Z.eqb_eq in E. now subst.
  - intros H. exists t. split; [assumption | apply Z.eqb_refl].
Qed.

(** [unwindTokens] pops the entries above the topmost [t] and that [t]. *)
Lemma unwindTokens_app above below t :
  ~ In t above -> unwindTokens (above ++ t :: below) t = Some below.
Proof.
  induction above as [|a above IH]; simpl; intros H.
  - now rewrite Z.eqb_refl.
  - destruct (a =? t) eqn:E.
    + apply Z.eqb_eq in E. tauto.
    + apply IH. tauto.
Qed.

Lemma contains_split queue t :
  contains queue t = true ->
  exists above below, queue = above ++ t :: below /\ ~ In t above.
Proof.
  induction queue as [|a queue IH]; simpl; [discriminate|].
  destruct (t =? a) eqn:E; simpl.
  - intros _. apply Z.eqb_eq in E. subst. exists [], queue. simpl. tauto.
  - intros H. destruct (IH H) as (above & below & -> & Hn).
    exists (a :: above), below. split; [reflexivity|].
    simpl. intros [->|]; [|tauto]. now rewrite Z.eqb_refl in E.
Qed.

Lemma unwindTokens_contains queue t :
  contains queue t = true -> exists below, unwindTokens queue t = Some below.
Proof.
  intros H. destruct (contains_split _ _ H) as (above & below & -> & Hn).
  exists below. now apply unwindTokens_app.
Qed.
Section BodyFacts.
Context {L : Lexer}.

Lemma contains_cons a q t : contains (a :: q) t = (t =? a) || contains q t.
Proof. reflexivity. Qed.

Lemma contains_nil t : contains [] t = false.
Proof. reflexivity. Qed.

Lemma isNot_eof T : isNot T tok.eof = true -> getKind T <> tok.eof.
Proof. destruct T as [k]. intros H E. simpl in E. subst k. discriminate. Qed.

Lemma contains_tl q k t :
  back_or q (-1) = k -> k <> t -> contains q t = true -> contains (tl q) t = true.
Proof.
  destruct q as [|a q]; cbn [back_or tl]; [discriminate 3|].
  intros -> Hk. rewrite contains_cons.
  destruct (Z.eqb_spec t k); [congruence | trivial].
Qed.

Lemma top_matches_back_or q k :
  top_matches q k = (back_or q (-1) =? tok.to_int (opener_of k)).
Proof. destruct q; [now destruct k | reflexivity]. Qed.

Local Opaque contains.

Ltac lex_quoted line p k :=
  let HQ := fresh "HQ" in
  pose proof (LexQuotedString_advances line p {| getKind := k |}) as HQ;
  destruct (LexQuotedStringAndAdvance line p {| getKind := k |}) as [? ?];
  simpl in HQ.

Ltac body_cases Hml :=
  cbn;
  repeat match goal with
  | |- context [unwindTokens ?q ?t] =>
    destruct (unwindTokens q t) eqn:?
  | |- context [findNestedBlockComments ?l ?a ?b] =>
    destruct (findNestedBlockComments_range l a b) as [-> | [-> | ->]]; cbn
  | |- context [LexQuotedStringAndAdvance ?l ?p {| getKind := ?k |}] =>
    lex_quoted l p k; cbn
  | |- context [match ?q with [] => _ | _ :: _ => _ end] =>
    destruct q; cbn
  | |- context [?a =? ?n] =>
    destruct (Z.eqb_spec a n); subst; cbn
  end.

Lemma body_sound line s :
  consistent s ->
  match body line s with
  | Ok (ToCondition T, s') =>
    consistent s' /\ Res s' = Res s /\
    (isNot T tok.eof = true -> (curPos s < curPos s' <= String.length line)%nat)
  | Ok (Break, s') =>
    Res s' = Res s \/
    (Res s' = kMismatch /\ mismatch_detected line s /\ ParenStack s' = ParenStack s)
  | _ => False
  end.
Proof.
  intros [Hml Hct].
  unfold body, brackets, mismatch_detected, next_kind, consistent.
  pose proof (LexPunctuator_advances line (curPos s)) as HA.
  destruct (LexPunctuatorAndAdvance line (curPos s)) as [p T] eqn:EL.
  simpl in HA.
  destruct s as [R c ml ct q]; simpl in *.
  destruct T as [k].
  destruct Hct as [-> | ->]; destruct k; destruct ml; body_cases Hml;
  repeat match goal with
  | |- _ /\ _ => split
  | |- _ = _ -> _ => intros ?
  end; auto; try (apply HA; discriminate); try discriminate;
  try (eapply contains_tl; [eassumption | discriminate | auto]);
  try (right; rewrite top_matches_back_or; cbn;
       repeat split; apply Z.eqb_neq; assumption);
  try (match goal with H : isNot _ _ = true |- _ =>
         apply isNot_eof in H; specialize (HQ H);
         specialize (HA ltac:(discriminate)); lia end);
  try (destruct (unwindTokens_contains q 8 (Hml eq_refl)); congruence).
Qed.

Lemma body_mismatch line s :
  consistent s -> mismatch_detected line s ->
  body line s =
  Ok (Break,
      {| Res := kMismatch;
         curPos := fst (LexPunctuatorAndAdvance line (curPos s));
         multilineComment := false;
         commentTok := commentTok s;
         ParenStack := ParenStack s |}).
Proof.
  intros [Hml Hct] (Hk & Hm & Ht). revert Hk Ht.
  unfold body, brackets, next_kind. rewrite top_matches_back_or.
  destruct (LexPunctuatorAndAdvance line (curPos s)) as [p T].
  destruct s as [R c ml ct q]; simpl in *. subst ml.
  destruct T as [k].
  destruct Hct as [-> | ->]; destruct k; try discriminate; cbn;
    intros _ ->; reflexivity.
Qed.

Lemma entry_consistent v : consistent (entry v).
Proof.
  unfold consistent, entry; simpl. split; [trivial|].
  destruct (inBlockComment v); auto.
Qed.

Lemma step_consistent line s s' : consistent s -> step line s s' -> consistent s'.
Proof.
  intros H (T & E & _). pose proof (body_sound line s H) as B.
  rewrite E in B. tauto.
Qed.

Lemma scans_consistent line s0 s : consistent s0 -> scans line s0 s -> consistent s.
Proof. induction 2; eauto using step_consistent. Qed.

Lemma scans_front line s0 s1 s :
  step line s0 s1 -> scans line s1 s -> scans line s0 s.
Proof.
  intros H. induction 1.
  - eapply scans_next; [apply scans_here | exact H].
  - eapply scans_next; eassumption.
Qed.

Lemma loop_step line fuel s s' :
  step line s s' -> loop (S fuel) line s = loop fuel line s'.
Proof. intros (T & E & N). simpl. now rewrite E, N. Qed.

(** The loop goes through every state [scans] reaches. *)
Lemma scans_loop line s0 s :
  scans line s0 s ->
  forall fuel sf, loop fuel line s0 = Ok sf ->
  exists fuel', loop fuel' line s = Ok sf.
Proof.
  induction 1 as [|s s' _ IH H]; intros fuel sf E.
  - eauto.
  - destruct (IH _ _ E) as [[|fuel'] E']; [discriminate|].
    exists fuel'. now rewrite <- (loop_step _ _ _ _ H).
Qed.

(** Enough fuel: the loop returns. *)
Lemma loop_returns line fuel s :
  consistent s ->
  (curPos s <= String.length line < curPos s + fuel)%nat ->
  exists sf, loop fuel line s = Ok sf.
Proof.
  revert s. induction fuel as [|fuel IH]; intros s Hc Hf; [lia|].
  simpl. pose proof (body_sound line s Hc) as B.
  destruct (body line s) as [[[T|] s']| |]; try contradiction; [|eauto].
  destruct B as (Hc' & _ & Hp).
  destruct (isNot T tok.eof) eqn:N; [|eauto].
  specialize (Hp eq_refl). apply IH; [assumption | lia].
Qed.

(** The result flag changes only where a mismatch is detected. *)
Lemma loop_Res line fuel s0 sf :
  consistent s0 -> loop fuel line s0 = Ok sf ->
  Res sf = Res s0 \/
  (Res sf = kMismatch /\
   exists s, scans line s0 s /\ mismatch_detected line s /\
             ParenStack sf = ParenStack s).
Proof.
  revert s0. induction fuel as [|fuel IH]; intros s0 Hc; [discriminate|].
  simpl. pose proof (body_sound line s0 Hc) as B.
  destruct (body line s0) as [[[T|] s']| |] eqn:E; try contradiction.
  - destruct B as (Hc' & HR & _).
    destruct (isNot T tok.eof) eqn:N.
    + intros H. destruct (IH _ Hc' H) as [H1 | (H1 & s & Hs & Hm & Hq)].
      * left. congruence.
      * right. split; [assumption|]. exists s. split; [|tauto].
        eapply scans_front; [|eassumption]. exists T. auto.
    + intros [= <-]. now left.
  - intros [= <-]. destruct B as [B | (B1 & B2 & B3)]; [now left|].
    right. split; [assumption|]. exists s0. split; [apply scans_here | tauto].
Qed.

Lemma loop_mismatch line fuel s0 s sf :
  consistent s0 -> scans line s0 s -> mismatch_detected line s ->
  loop fuel line s0 = Ok sf ->
  Res sf = kMismatch /\ ParenStack sf = ParenStack s.
Proof.
  intros Hc Hs Hm E.
  destruct (scans_loop _ _ _ Hs _ _ E) as [[|fuel'] E']; [discriminate|].
  simpl in E'. rewrite (body_mismatch line s) in E'
    by eauto using scans_consistent.
  injection E' as <-. auto.
Qed.

End BodyFacts.

(** ** The classification of a line *)

Section Classification.
Context {L : Lexer}.

(** [validate] returns: no assertion fails and the loop is over within
    its bound. *)
Lemma validate_returns v line :
  exists s,
    loop (S (String.length line)) line (entry v) = Ok s /\
    validate v line = Ok (finish v line s).
Proof.
  destruct (loop_returns line (S (String.length line)) (entry v)) as [s E].
  - apply entry_consistent.
  - simpl. lia.
  - exists s. split; [assumption|]. unfold validate. now rewrite E.
Qed.

Lemma validate_inv v line res v' :
  validate v line = Ok (res, v') ->
  exists s,
    loop (S (String.length line)) line (entry v) = Ok s /\
    res = classify s /\ m_ParenStack v' = ParenStack s /\
    m_Input v' = join (m_Input v) (ParenStack s) line.
Proof.
  destruct (validate_returns v line) as (s & E & V). rewrite V.
  unfold finish. intros [= <- <-]. exists s. auto.
Qed.

Lemma classify_Mismatch s : Res s = kMismatch -> classify s = kMismatch.
Proof.
  unfold classify. intros ->. simpl. now rewrite andb_false_r.
Qed.

Lemma classify_Complete s :
  Res s = kComplete ->
  classify s = match ParenStack s with [] => kComplete | _ => kIncomplete end.
Proof. unfold classify. intros ->. now destruct (ParenStack s). Qed.

End Classification.

(** C1.  For every line, [validate] returns [kMismatch] exactly when a
    bracket mismatch is detected while the line is scanned (a closing
    bracket read outside a block comment at a state the loop reaches, with
    the stack empty or its top not the bracket's opener), whatever the
    stack holds; otherwise it returns [kIncomplete] when the stack is left
    non-empty and [kComplete] when it is left empty.  In particular the
    stack is empty whenever [validate] returns [kComplete]. *)
Theorem validate_three_way {L : Lexer} (v : InputValidator) (line : string) :
  exists res v',
    validate v line = Ok (res, v') /\
    (res = kMismatch <->
     exists s, scans line (entry v) s /\ mismatch_detected line s) /\
    (res <> kMismatch -> m_ParenStack v' <> [] -> res = kIncomplete) /\
    (res <> kMismatch -> m_ParenStack v' = [] -> res = kComplete) /\
    (res = kComplete -> m_ParenStack v' = []).
Proof.
  destruct (validate_returns v line) as (s & E & V).
  exists (classify s), (snd (finish v line s)).
  split; [exact V|]. simpl.
  destruct (loop_Res _ _ _ _ (entry_consistent v) E)
    as [HR | (HR & s1 & Hs & Hm & _)]; simpl in HR.
  - rewrite (classify_Complete s HR).
    split; [|destruct (ParenStack s); repeat split; congruence].
    split; [destruct (ParenStack s); discriminate|].
    intros (s1 & Hs & Hm).
    destruct (loop_mismatch _ _ _ _ _ (entry_consistent v) Hs Hm E). congruence.
  - rewrite (classify_Mismatch s HR).
    repeat split; try congruence. eauto.
Qed.

Lemma validate_three_way_witness :
  exists res v',
    @validate MetaLexer.lexer fresh "int f() {" = Ok (res, v') /\
    (res = kMismatch <->
     exists s, scans (L := MetaLexer.lexer) "int f() {" (entry fresh) s /\
               mismatch_detected (L := MetaLexer.lexer) "int f() {" s) /\
    (res <> kMismatch -> m_ParenStack v' <> [] -> res = kIncomplete) /\
    (res <> kMismatch -> m_ParenStack v' = [] -> res = kComplete) /\
    (res = kComplete -> m_ParenStack v' = []).
Proof.
  exact (validate_three_way (L := MetaLexer.lexer) fresh "int f() {"%string).
Defined.

(** C2.  When the loop reads a closing bracket outside a block comment while
    the stack is empty or its top is not the bracket's opener, [validate]
    returns [kMismatch] and the stack is left as it was at that bracket:
    the rest of the line is not processed.  On a new validator the line
    [")"] gives [kMismatch]. *)
Theorem closing_bracket_mismatch :
  (forall (L : Lexer) (v : InputValidator) (line : string) (s : Locals),
      scans line (entry v) s ->
      mismatch_detected line s ->
      validate v line =
      Ok (kMismatch,
          {| m_Input := join (m_Input v) (ParenStack s) line;
             m_ParenStack := ParenStack s |})) /\
  @validate MetaLexer.lexer fresh ")" =
  Ok (kMismatch, {| m_Input := ")"; m_ParenStack := [] |}).
Proof.
  split; [|vm_compute; reflexivity].
  intros L v line s Hs Hm.
  destruct (validate_returns v line) as (sf & E & V). rewrite V.
  destruct (loop_mismatch _ _ _ _ _ (entry_consistent v) Hs Hm E) as [HR Hq].
  unfold finish. now rewrite (classify_Mismatch sf HR), Hq.
Qed.

Lemma closing_bracket_mismatch_witness :
  scans (L := MetaLexer.lexer) "(]"%string (entry fresh)
        {| Res := kComplete; curPos := 1; multilineComment := false;
           commentTok := 8; ParenStack := [2] |} /\
  mismatch_detected (L := MetaLexer.lexer) "(]"%string
        {| Res := kComplete; curPos := 1; multilineComment := false;
           commentTok := 8; ParenStack := [2] |} /\
  @validate MetaLexer.lexer fresh "(]" =
  Ok (kMismatch, {| m_Input := "(]"; m_ParenStack := [2] |}).
Proof.
  assert (Hs : scans (L := MetaLexer.lexer) "(]"%string (entry fresh)
        {| Res := kComplete; curPos := 1; multilineComment := false;
           commentTok := 8; ParenStack := [2] |}).
  { eapply scans_next; [apply scans_here|].
    exists {| getKind := tok.l_paren |}. split; vm_compute; reflexivity. }
  assert (Hm : mismatch_detected (L := MetaLexer.lexer) "(]"%string
        {| Res := kComplete; curPos := 1; multilineComment := false;
           commentTok := 8; ParenStack := [2] |}).
  { repeat split; vm_compute; reflexivity. }
  split; [exact Hs|]. split; [exact Hm|].
  exact (proj1 closing_bracket_mismatch MetaLexer.lexer fresh "(]"%string _ Hs Hm).
Defined.

(** C10.  A [kMismatch] does not roll the state back.  The stack is left as
    it was when the offending bracket was read, with whatever the earlier
    part of the line pushed, and the line is appended to the logical buffer
    as any other line is.  After ["(]"] on a new validator the stack holds
    the parenthesis and the buffer holds the line, so that without a [reset]
    a following [")"] closes that parenthesis. *)
Theorem mismatch_keeps_partial_state :
  (forall (L : Lexer) (v v' : InputValidator) (line : string),
      validate v line = Ok (kMismatch, v') ->
      (exists s, scans line (entry v) s /\ mismatch_detected line s /\
                 m_ParenStack v' = ParenStack s) /\
      m_Input v' = join (m_Input v) (m_ParenStack v') line /\
      exists prefix, m_Input v' = (prefix ++ line)%string) /\
  (exists v',
      @validate MetaLexer.lexer fresh "(]" = Ok (kMismatch, v') /\
      m_ParenStack v' = [tok.to_int tok.l_paren] /\
      m_ParenStack v' <> m_ParenStack fresh /\
      m_Input v' = "(]"%string /\
      @validate MetaLexer.lexer v' ")" =
      Ok (kComplete, {| m_Input := ("(]" ++ newline ++ ")")%string;
                        m_ParenStack := [] |})).
Proof.
  split.
  - intros L v v' line V.
    destruct (validate_inv _ _ _ _ V) as (s & E & Hres & Hq & Hi).
    rewrite Hq, Hi. split; [|split; [reflexivity | unfold join; eauto]].
    destruct (loop_Res _ _ _ _ (entry_consistent v) E)
      as [HR | (HR & s1 & Hs & Hm & Hq1)]; simpl in HR.
    + rewrite (classify_Complete s HR) in Hres.
      destruct (ParenStack s); discriminate.
    + eauto.
  - exists {| m_Input := "(]"; m_ParenStack := [2] |}.
    split; [vm_compute; reflexivity|].
    split; [reflexivity|]. split; [discriminate|].
    split; [reflexivity|]. vm_compute; reflexivity.
Qed.

Lemma mismatch_keeps_partial_state_witness :
  @validate MetaLexer.lexer fresh "(]" =
  Ok (kMismatch, {| m_Input := "(]"; m_ParenStack := [2] |}) /\
  (exists s, scans (L := MetaLexer.lexer) "(]" (entry fresh) s /\
             mismatch_detected (L := MetaLexer.lexer) "(]" s /\
             [2] = ParenStack s) /\
  "(]"%string = join EmptyString [2] "(]" /\
  exists prefix, "(]"%string = (prefix ++ "(]")%string.
Proof.
  assert (V : @validate MetaLexer.lexer fresh "(]" =
              Ok (kMismatch, {| m_Input := "(]"; m_ParenStack := [2] |}))
    by (vm_compute; reflexivity).
  split; [exact V|].
  exact (proj1 mismatch_keeps_partial_state MetaLexer.lexer fresh
               {| m_Input := "(]"; m_ParenStack := [2] |} "(]"%string V).
Defined.

(** C9.  Whatever state earlier calls left the validator in, [reset]
    followed by [validate X] returns what [validate X] returns on a new
    validator and leaves the same stack, the same logical buffer and the
    same inside-block-comment condition. *)
Theorem reset_then_validate_as_fresh {L : Lexer} (v : InputValidator) (X : string) :
  reset v = fresh /\
  validate (reset v) X = validate fresh X /\
  exists res v1 v2,
    validate (reset v) X = Ok (res, v1) /\
    validate fresh X = Ok (res, v2) /\
    m_ParenStack v1 = m_ParenStack v2 /\
    m_Input v1 = m_Input v2 /\
    inBlockComment v1 = inBlockComment v2.
Proof.
  split; [reflexivity|]. split; [reflexivity|].
  destruct (validate_returns fresh X) as (s & _ & V).
  exists (fst (finish fresh X s)), (snd (finish fresh X s)), (snd (finish fresh X s)).
  repeat split; exact V.
Qed.

Lemma reset_then_validate_as_fresh_witness :
  let v := {| m_Input := "(]"; m_ParenStack := [2] |} in
  reset v = fresh /\
  @validate MetaLexer.lexer (reset v) "}" = @validate MetaLexer.lexer fresh "}" /\
  exists res v1 v2,
    @validate MetaLexer.lexer (reset v) "}" = Ok (res, v1) /\
    @validate MetaLexer.lexer fresh "}" = Ok (res, v2) /\
    m_ParenStack v1 = m_ParenStack v2 /\
    m_Input v1 = m_Input v2 /\
    inBlockComment v1 = inBlockComment v2.
Proof.
  exact (reset_then_validate_as_fresh (L := MetaLexer.lexer)
           {| m_Input := "(]"; m_ParenStack := [2] |} "}"%string).
Defined.

(** ** Block comments *)

Section Comments.
Context {L : Lexer}.

(** A confirmed close: the loop is inside a comment, an asterisk has just
    been read (the cursor waits for the slash) and the slash comes. *)
Lemma body_confirmed_close line s p T above below :
  LexPunctuatorAndAdvance line (curPos s) = (p, T) ->
  getKind T = tok.slash ->
  multilineComment s = true ->
  commentTok s = tok.to_int tok.slash ->
  ParenStack s = above ++ tok.to_int tok.slash :: below ->
  ~ In (tok.to_int tok.slash) above ->
  body line s =
  Ok (ToCondition T,
      {| Res := Res s; curPos := p; multilineComment := false;
         commentTok := tok.to_int tok.slash; ParenStack := below |}).
Proof.
  intros EL Hk Hm Hc Hq Hn. unfold body. rewrite EL, Hk, Hc, Hm. cbn.
  rewrite Hq. cbn. fold (tok.to_int tok.slash).
  now rewrite (unwindTokens_app above below _ Hn).
Qed.

End Comments.

(** C3.  When the slash of a [*/] comes while the loop is inside a block
    comment, the topmost in-block-comment marker is popped together with
    everything above it, and the loop is outside the comment.  The line
    [{ /* { */ }] on a new validator is [kComplete]: the brace opened
    inside the comment is gone when the outer brace closes. *)
Theorem comment_close_discards_inner :
  (forall (L : Lexer) (line : string) (s : Locals) (p : nat) (T : Token)
          (above below : list Z),
      LexPunctuatorAndAdvance line (curPos s) = (p, T) ->
      getKind T = tok.slash ->
      multilineComment s = true ->
      commentTok s = tok.to_int tok.slash ->
      ParenStack s = above ++ tok.to_int tok.slash :: below ->
      ~ In (tok.to_int tok.slash) above ->
      body line s =
      Ok (ToCondition T,
          {| Res := Res s; curPos := p; multilineComment := false;
             commentTok := tok.to_int tok.slash; ParenStack := below |})) /\
  @validate MetaLexer.lexer fresh "{ /* { */ }" =
  Ok (kComplete, {| m_Input := "{ /* { */ }"; m_ParenStack := [] |}).
Proof.
  split; [|vm_compute; reflexivity].
  intros L line s p T above below. apply body_confirmed_close.
Qed.

Lemma comment_close_discards_inner_witness :
  body (L := MetaLexer.lexer) "{ /* { */ }"
       {| Res := kComplete; curPos := 8; multilineComment := true;
          commentTok := 8; ParenStack := [4; 8; 4] |} =
  Ok (ToCondition {| getKind := tok.slash |},
      {| Res := kComplete; curPos := 9; multilineComment := false;
         commentTok := 8; ParenStack := [4] |}).
Proof.
  apply (proj1 comment_close_discards_inner MetaLexer.lexer
               "{ /* { */ }"%string
               {| Res := kComplete; curPos := 8; multilineComment := true;
                  commentTok := 8; ParenStack := [4; 8; 4] |}
               9%nat {| getKind := tok.slash |} [4] [4]).
  - vm_compute; reflexivity.
  - reflexivity.
  - reflexivity.
  - reflexivity.
  - reflexivity.
  - simpl. intros [H|[]]. discriminate.
Defined.

Section InsideComment.
Context {L : Lexer}.

Lemma body_bracket_in_comment line s p T above below :
  LexPunctuatorAndAdvance line (curPos s) = (p, T) ->
  opening (getKind T) || closing (getKind T) = true ->
  multilineComment s = true ->
  commentTok s = tok.to_int tok.slash \/ commentTok s = tok.to_int tok.asterik ->
  ParenStack s = above ++ tok.to_int tok.slash :: below ->
  body line s =
  Ok (ToCondition T,
      {| Res := Res s; curPos := p; multilineComment := true;
         commentTok := tok.to_int tok.asterik;
         ParenStack :=
           above_after (getKind T) above ++ tok.to_int tok.slash :: below |}).
Proof.
  intros EL Hk Hm Hc Hq. unfold body, brackets, above_after.
  rewrite EL. destruct s as [R c ml ct q]. simpl in *. subst ml q.
  destruct T as [k].
  destruct Hc as [-> | ->]; destruct k; try discriminate; cbn;
    try reflexivity;
    destruct above as [|a above]; cbn; try reflexivity;
    match goal with |- context [?a =? ?n] => destruct (a =? n); reflexivity end.
Qed.

End InsideComment.

(** C5, as the claim states it, fails: an opening parenthesis read while
    the in-block-comment marker is on the stack is pushed. *)
Lemma bracket_in_comment_pushed :
  let line := "/*("%string in
  let s := {| Res := kComplete; curPos := 2; multilineComment := true;
              commentTok := tok.to_int tok.asterik;
              ParenStack := [tok.to_int tok.slash] |} in
  scans (L := MetaLexer.lexer) line (entry fresh) s /\
  contains (ParenStack s) (tok.to_int tok.slash) = true /\
  next_kind (L := MetaLexer.lexer) line s = tok.l_paren /\
  exists T s',
    body (L := MetaLexer.lexer) line s = Ok (ToCondition T, s') /\
    ParenStack s' = [tok.to_int tok.l_paren; tok.to_int tok.slash] /\
    ParenStack s' <> ParenStack s.
Proof.
  cbv zeta. split; [|split; [reflexivity|split; [vm_compute; reflexivity|]]].
  - eapply scans_next; [eapply scans_next; [apply scans_here|]|].
    + exists {| getKind := tok.slash |}. split; vm_compute; reflexivity.
    + exists {| getKind := tok.asterik |}. split; vm_compute; reflexivity.
  - exists {| getKind := tok.l_paren |},
           {| Res := kComplete; curPos := 3; multilineComment := true;
              commentTok := 10; ParenStack := [2; 8] |}.
    split; [vm_compute; reflexivity|]. split; [reflexivity|discriminate].
Qed.

(** C5, amended.  Inside a block comment a bracket never yields a mismatch
    and never touches the in-block-comment marker or the entries below it.
    A closing bracket that does not match the top of the stack is skipped
    and leaves the whole stack unchanged; an opening bracket is pushed
    above the marker and a closing bracket that matches the top pops that
    top. *)
Theorem bracket_in_comment_keeps_marker
        (L : Lexer) (line : string) (s : Locals) (p : nat) (T : Token)
        (above below : list Z) :
  LexPunctuatorAndAdvance line (curPos s) = (p, T) ->
  opening (getKind T) || closing (getKind T) = true ->
  multilineComment s = true ->
  commentTok s = tok.to_int tok.slash \/ commentTok s = tok.to_int tok.asterik ->
  ParenStack s = above ++ tok.to_int tok.slash :: below ->
  exists s',
    body line s = Ok (ToCondition T, s') /\
    Res s' = Res s /\
    multilineComment s' = true /\
    ParenStack s' = above_after (getKind T) above ++ tok.to_int tok.slash :: below /\
    (closing (getKind T) = true ->
     top_matches (ParenStack s) (getKind T) = false ->
     ParenStack s' = ParenStack s) /\
    (opening (getKind T) = true ->
     ParenStack s' = tok.to_int (getKind T) :: ParenStack s) /\
    (closing (getKind T) = true ->
     top_matches (ParenStack s) (getKind T) = true ->
     ParenStack s' = tl (ParenStack s)).
Proof.
  intros EL Hk Hm Hc Hq.
  eexists. split; [eapply body_bracket_in_comment; eassumption|].
  simpl. repeat split.
  - intros Hcl. rewrite Hq. unfold above_after.
    destruct (getKind T); try discriminate;
      destruct above as [|a above]; cbn; try reflexivity;
      intros ->; reflexivity.
  - intros Ho. rewrite Hq. unfold above_after. now rewrite Ho.
  - intros Hcl. rewrite Hq. unfold above_after.
    destruct (getKind T); try discriminate;
      destruct above as [|a above]; cbn; try discriminate;
      intros ->; reflexivity.
Qed.

Lemma bracket_in_comment_keeps_marker_witness :
  exists s',
    body (L := MetaLexer.lexer) "{/*(]"
         {| Res := kComplete; curPos := 4; multilineComment := true;
            commentTok := 10; ParenStack := [2; 8; 4] |} =
    Ok (ToCondition {| getKind := tok.r_square |}, s') /\
    ParenStack s' = [2; 8; 4].
Proof.
  destruct (bracket_in_comment_keeps_marker MetaLexer.lexer "{/*(]"%string
              {| Res := kComplete; curPos := 4; multilineComment := true;
                 commentTok := 10; ParenStack := [2; 8; 4] |}
              5%nat {| getKind := tok.r_square |} [2] [4])
    as (s' & B & _ & _ & Hq & _).
  - vm_compute; reflexivity.
  - reflexivity.
  - reflexivity.
  - right. reflexivity.
  - reflexivity.
  - exists s'. split; [exact B | exact Hq].
Defined.

(** C7.  [validate] returns on every line from every state: none of its
    assertions fails.  Whenever an iteration of its loop calls
    [unwindTokens] (on a confirmed close, or when the recovery at the end
    of the line reports the comment closed), the in-block-comment marker is
    on the stack, and the call pops the entries above the topmost marker
    and that marker and leaves the entries below. *)
Theorem unwindTokens_calls_are_safe :
  (forall (L : Lexer) (v : InputValidator) (line : string),
      exists res v', validate v line = Ok (res, v')) /\
  (forall (L : Lexer) (v : InputValidator) (line : string) (s : Locals),
      scans line (entry v) s ->
      calls_unwindTokens line s = true ->
      contains (ParenStack s) (tok.to_int tok.slash) = true /\
      exists above below,
        ParenStack s = above ++ tok.to_int tok.slash :: below /\
        ~ In (tok.to_int tok.slash) above /\
        unwindTokens (ParenStack s) (tok.to_int tok.slash) = Some below) /\
  (forall (above below : list Z) (t : Z),
      ~ In t above -> unwindTokens (above ++ t :: below) t = Some below).
Proof.
  split; [|split].
  - intros L v line. destruct (validate_returns v line) as (s & _ & V).
    rewrite V. unfold finish. eauto.
  - intros L v line s Hs Hcall.
    apply (scans_consistent _ _ _ (entry_consistent v)) in Hs.
    destruct Hs as [Hml _].
    assert (Hm : multilineComment s = true).
    { unfold calls_unwindTokens in Hcall.
      destruct (LexPunctuatorAndAdvance line (curPos s)) as [p T].
      destruct (_ =? commentTok s).
      - now apply andb_true_iff in Hcall.
      - apply andb_true_iff in Hcall. destruct Hcall as [Hcall _].
        now apply andb_true_iff in Hcall. }
    specialize (Hml Hm). split; [assumption|].
    destruct (contains_split _ _ Hml) as (above & below & Hq & Hn).
    exists above, below. repeat split; try assumption.
    rewrite Hq. now apply unwindTokens_app.
  - intros above below t. apply unwindTokens_app.
Qed.

Lemma unwindTokens_calls_are_safe_witness :
  let v := {| m_Input := "{ /* ("; m_ParenStack := [2; 8; 4] |} in
  let line := "// */"%string in
  calls_unwindTokens (L := MetaLexer.lexer) line (entry v) = true /\
  contains (ParenStack (entry v)) (tok.to_int tok.slash) = true /\
  @validate MetaLexer.lexer v line =
  Ok (kIncomplete, {| m_Input := ("{ /* (" ++ newline ++ "// */")%string;
                      m_ParenStack := [4] |}).
Proof.
  cbv zeta.
  assert (C : calls_unwindTokens (L := MetaLexer.lexer) "// */"
                (entry {| m_Input := "{ /* ("; m_ParenStack := [2; 8; 4] |}) = true)
    by (vm_compute; reflexivity).
  split; [exact C|]. split; [|vm_compute; reflexivity].
  exact (proj1 (proj1 (proj2 unwindTokens_calls_are_safe) MetaLexer.lexer
                 {| m_Input := "{ /* ("; m_ParenStack := [2; 8; 4] |}
                 "// */"%string _ (scans_here _ _) C)).
Defined.

(** ** Where the code departs from its description *)

(** C4.  Outside a block comment nothing takes back the advance of the
    digraph cursor on a slash: on the line [x / y[i] * z] the slash and the
    asterisk, with a pair of square brackets between them, open a block
    comment. *)
Theorem slash_then_later_asterisk_opens_comment :
  exists v',
    @validate MetaLexer.lexer fresh "x / y[i] * z" = Ok (kIncomplete, v') /\
    m_ParenStack v' = [tok.to_int tok.slash] /\
    inBlockComment v' = true.
Proof.
  exists {| m_Input := "x / y[i] * z"; m_ParenStack := [8] |}.
  split; [vm_compute; reflexivity|]. split; reflexivity.
Qed.

(** C8.  The line [(1/2)*3] has balanced brackets, no comment and no
    literal; on a new validator it is [kIncomplete] and leaves the
    in-block-comment marker on the stack. *)
Theorem balanced_line_with_division_incomplete :
  @validate MetaLexer.lexer fresh "(1/2)*3" =
  Ok (kIncomplete, {| m_Input := "(1/2)*3";
                      m_ParenStack := [tok.to_int tok.slash] |}).
Proof. vm_compute; reflexivity. Qed.
(** ** What the stack holds *)

Section Markers.
Context {L : Lexer}.

Lemma unwindTokens_suffix (P : Z -> Prop) queue t below :
  Forall P queue -> unwindTokens queue t = Some below -> Forall P below.
Proof.
  induction 1 as [|a queue Ha Hq IH]; simpl; [discriminate|].
  destruct (a =? t); [now intros [= <-] | exact IH].
Qed.

Lemma Forall_tl (P : Z -> Prop) queue : Forall P queue -> Forall P (tl queue).
Proof. destruct 1; simpl; auto. Qed.

(** Only openers and in-block-comment markers are ever pushed. *)
Lemma body_markers line s e s' :
  Forall marker (ParenStack s) ->
  body line s = Ok (e, s') ->
  Forall marker (ParenStack s').
Proof.
  intros Hq. unfold body, brackets.
  destruct (LexPunctuatorAndAdvance line (curPos s)) as [p T].
  destruct s as [R c ml ct q]; simpl in *.
  destruct T as [k].
  assert (Hs : Forall marker (tok.to_int tok.slash :: q))
    by (constructor; unfold marker; auto).
  pose proof (Forall_tl _ _ Hq) as Ht.
  destruct k; cbn;
  repeat match goal with
  | |- context [if ?b then _ else _] => destruct b
  | |- context [unwindTokens ?q ?t] =>
    destruct (unwindTokens q t) eqn:?
  | |- context [LexQuotedStringAndAdvance ?l ?p ?T] =>
    destruct (LexQuotedStringAndAdvance l p T)
  end;
    try discriminate; intros [= <- <-]; simpl; try assumption;
    try (eapply unwindTokens_suffix; [exact Hq | eassumption]);
    constructor; unfold marker; auto.
Qed.

Lemma loop_markers line fuel s sf :
  Forall marker (ParenStack s) ->
  loop fuel line s = Ok sf ->
  Forall marker (ParenStack sf).
Proof.
  revert s. induction fuel as [|fuel IH]; intros s Hq; [discriminate|].
  simpl. destruct (body line s) as [[[T|] s']| |] eqn:E; try discriminate.
  - apply body_markers in E; [|assumption].
    destruct (isNot T tok.eof); [now apply IH | now intros [= <-]].
  - apply body_markers in E; [|assumption]. now intros [= <-].
Qed.

Lemma validate_markers v line res v' :
  Forall marker (m_ParenStack v) ->
  validate v line = Ok (res, v') ->
  Forall marker (m_ParenStack v').
Proof.
  intros Hq V. destruct (validate_inv _ _ _ _ V) as (s & E & _ & -> & _).
  eapply loop_markers; [|exact E]. exact Hq.
Qed.

Lemma feed_markers lines : forall v v',
  Forall marker (m_ParenStack v) ->
  feed v lines = Ok v' ->
  Forall marker (m_ParenStack v').
Proof.
  induction lines as [|line lines IH]; simpl; intros v v' Hq.
  - now intros [= <-].
  - destruct (validate v line) as [[res v1]| |] eqn:V; try discriminate.
    apply IH. eapply validate_markers; eassumption.
Qed.

(** No literal start is ever on the stack, so the join of a line to the
    buffer is by a real newline. *)
Lemma join_markers Input queue line :
  Forall marker queue ->
  join Input queue line =
  ((if Nat.eqb (String.length Input) 0 then EmptyString
    else Input ++ newline) ++ line)%string.
Proof.
  intros Hq. unfold join.
  destruct (Nat.eqb (String.length Input) 0); simpl; [reflexivity|].
  destruct Hq as [|a queue Ha _]; simpl; [reflexivity|].
  destruct Ha as [-> | [-> | [-> | ->]]]; reflexivity.
Qed.

Lemma feed_join_newline lines v line res v' :
  feed fresh lines = Ok v ->
  validate v line = Ok (res, v') ->
  m_Input v' =
  ((if Nat.eqb (String.length (m_Input v)) 0 then EmptyString
    else m_Input v ++ newline) ++ line)%string.
Proof.
  intros F V.
  assert (Hq : Forall marker (m_ParenStack v')).
  { eapply validate_markers; [|exact V].
    eapply feed_markers; [|exact F]. constructor. }
  destruct (validate_inv _ _ _ _ V) as (s & _ & _ & Hs & ->).
  apply join_markers. now rewrite <- Hs.
Qed.

End Markers.

(** C6.  A string literal left open at the end of its line is joined to
    the next line by a real newline: no literal start is ever pushed on the
    stack, so the escaped newline is never chosen. *)
Theorem open_literal_joined_by_newline :
  let line1 := ("int x = " ++ dquote ++ "a")%string in
  let line2 := ("b" ++ dquote ++ ";")%string in
  exists v1 v2,
    @validate MetaLexer.lexer fresh line1 = Ok (kComplete, v1) /\
    m_ParenStack v1 = [] /\
    @validate MetaLexer.lexer v1 line2 = Ok (kComplete, v2) /\
    m_Input v2 = (line1 ++ newline ++ line2)%string /\
    m_Input v2 <> (line1 ++ escaped_newline ++ line2)%string.
Proof.
  cbv zeta.
  exists {| m_Input := ("int x = " ++ dquote ++ "a")%string; m_ParenStack := [] |}.
  exists {| m_Input := (("int x = " ++ dquote ++ "a") ++ newline
                        ++ ("b" ++ dquote ++ ";"))%string;
            m_ParenStack := [] |}.
  split; [vm_compute; reflexivity|]. split; [reflexivity|].
  split; [vm_compute; reflexivity|]. split; [reflexivity|].
  vm_compute. discriminate.
Qed.

(** ** The digraph cursor *)

Section Cursor.
Context {L : Lexer}.

(** Inside a comment, a token that is neither the awaited slash nor
    another asterisk cancels the wait for the slash (lines 147-152). *)
Lemma body_cancels_wait_in_comment line s e s' :
  multilineComment s = true ->
  commentTok s = tok.to_int tok.slash ->
  next_kind line s <> tok.slash ->
  next_kind line s <> tok.asterik ->
  next_kind line s <> tok.eof ->
  body line s = Ok (e, s') ->
  commentTok s' = tok.to_int tok.asterik.
Proof.
  unfold body, brackets, next_kind.
  destruct (LexPunctuatorAndAdvance line (curPos s)) as [p T].
  destruct s as [R c ml ct q]; simpl. intros -> -> H1 H2 H3.
  destruct T as [k]. simpl in *.
  destruct k; try congruence; cbn;
  repeat match goal with
  | |- context [if ?b then _ else _] => destruct b
  | |- context [LexQuotedStringAndAdvance ?l ?p ?T] =>
    destruct (LexQuotedStringAndAdvance l p T)
  end; intros [= <- <-]; reflexivity.
Qed.

(** Outside a comment no token takes back the advance on a slash: the
    cursor still waits for the asterisk after the iteration. *)
Lemma body_keeps_wait_outside_comment line s T s' :
  multilineComment s = false ->
  commentTok s = tok.to_int tok.asterik ->
  next_kind line s <> tok.asterik ->
  body line s = Ok (ToCondition T, s') ->
  multilineComment s' = false /\ commentTok s' = tok.to_int tok.asterik.
Proof.
  unfold body, brackets, next_kind.
  destruct (LexPunctuatorAndAdvance line (curPos s)) as [p T0].
  destruct s as [R c ml ct q]; simpl. intros -> -> H1.
  destruct T0 as [k]. simpl in *.
  destruct k; try congruence; cbn;
  repeat match goal with
  | |- context [if ?b then _ else _] => destruct b
  | |- context [LexQuotedStringAndAdvance ?l ?p ?T] =>
    destruct (LexQuotedStringAndAdvance l p T)
  end; try discriminate; intros [= <- <-]; split; reflexivity.
Qed.

End Cursor.

(** ** Lines of brackets only *)

Section Balanced.
Context {L : Lexer}.

Lemma run_stack_balanced ts :
  balanced ts -> forall rest q, run_stack (ts ++ rest) q = run_stack rest q.
Proof.
  induction 1 as [|k ts Hk _ IH|o ts1 ts2 Ho _ IH1 _ IH2]; intros rest q.
  - reflexivity.
  - simpl. destruct k; try discriminate; apply IH.
  - simpl. rewrite <- app_assoc. simpl.
    destruct o; try discriminate; simpl; rewrite IH1; simpl; apply IH2.
Qed.

(** Outside a comment and with the digraph cursor at rest, the loop is the
    stack machine on the tokens of the line. *)
Lemma loop_run_stack line fuel : forall s sf q',
  loop fuel line s = Ok sf ->
  multilineComment s = false ->
  commentTok s = tok.to_int tok.slash ->
  Forall (fun k => plain k = true) (tokens fuel line (curPos s)) ->
  run_stack (tokens fuel line (curPos s)) (ParenStack s) = Some q' ->
  ParenStack sf = q' /\ Res sf = Res s.
Proof.
  induction fuel as [|fuel IH]; intros s sf q'; [discriminate|].
  simpl. unfold body, brackets.
  destruct (LexPunctuatorAndAdvance line (curPos s)) as [p T].
  destruct s as [R c ml ct q]; simpl. intros E -> ->. revert E.
  destruct T as [k]. simpl.
  destruct k; cbn; intros E Hp Hr;
    try (inversion Hp; discriminate);
    try (injection E as <-; injection Hr as <-; split; reflexivity);
    try (inversion Hp; subst; exact (IH _ _ _ E eq_refl eq_refl H2 Hr));
    rewrite top_matches_back_or in Hr; cbn in Hr;
    match type of Hr with context [?a =? ?n] => destruct (a =? n) end;
    try discriminate; cbn in E;
    inversion Hp; subst; exact (IH _ _ _ E eq_refl eq_refl H2 Hr).
Qed.

(** A line whose tokens are balanced brackets and tokens the validator
    passes over is complete, and the stack is left empty. *)
Lemma plain_balanced_line_complete line :
  let ts := tokens (S (String.length line)) line 0 in
  Forall (fun k => plain k = true) ts ->
  balanced ts ->
  validate fresh line =
  Ok (kComplete, {| m_Input := line; m_ParenStack := [] |}).
Proof.
  intros ts Hp Hb.
  destruct (validate_returns fresh line) as (s & E & V). rewrite V.
  destruct (loop_run_stack line _ _ _ [] E eq_refl eq_refl Hp) as [Hq HR].
  - pose proof (run_stack_balanced ts Hb [] []) as H.
    rewrite app_nil_r in H. exact H.
  - unfold finish. rewrite (classify_Complete s HR), Hq. reflexivity.
Qed.

End Balanced.

Example plain_balanced_line_complete_example :
  @validate MetaLexer.lexer fresh "f(a[0], { b }) ? x : y;" =
  Ok (kComplete, {| m_Input := "f(a[0], { b }) ? x : y;"; m_ParenStack := [] |}).
Proof.
  apply (plain_balanced_line_complete (L := MetaLexer.lexer)).
  - vm_compute. repeat constructor.
  - vm_compute.
    apply (balanced_wrap tok.l_paren
             [tok.l_square; tok.r_square; tok.other; tok.l_brace; tok.r_brace]
             [tok.other; tok.other]).
    + reflexivity.
    + apply (balanced_wrap tok.l_square [] [tok.other; tok.l_brace; tok.r_brace]).
      * reflexivity.
      * constructor.
      * apply balanced_skip; [reflexivity|].
        apply (balanced_wrap tok.l_brace [] []); [reflexivity | constructor | constructor].
    + repeat (apply balanced_skip; [reflexivity|]). constructor.
Qed.

(** * Further properties *)

(** ** findNestedBlockComments *)

Lemma scanForward_no_double_slash line n : forall p c,
  (forall i, (p <= i)%nat -> (S i < p + n)%nat -> ~ double_slash line i) ->
  c = 0 \/ (c = 1 /\ ((0 < n)%nat -> charAt line p <> "/"%char)) ->
  scanForward line p n c = 0.
Proof.
  induction n as [|n IH]; intros p c Hno Hc; [reflexivity|].
  simpl. destruct (charAt line p =? "/")%char eqn:E.
  - apply Ascii.eqb_eq in E.
    destruct Hc as [-> | [_ Hc]]; [|exfalso; apply Hc; [lia | exact E]].
    simpl. apply IH.
    + intros i Hi Hn. apply Hno; lia.
    + right. split; [reflexivity|]. intros Hn E'.
      apply (Hno p); [lia | lia | split; assumption].
  - apply IH.
    + intros i Hi Hn. apply Hno; lia.
    + left. destruct Hc as [-> | [-> _]]; reflexivity.
Qed.

Lemma scanForward_first_double_slash line i n : forall p c,
  (p <= i)%nat -> (S i < p + n)%nat ->
  double_slash line i ->
  (forall j, (p <= j < i)%nat -> ~ double_slash line j) ->
  c = 0 \/ (c = 1 /\ charAt line p <> "/"%char) ->
  scanForward line p n c = scanBackward line (S i) (p + n - S i) 2.
Proof.
  induction n as [|n IH]; intros p c Hp Hn [D1 D2] Hno Hc; [lia|].
  simpl scanForward.
  destruct (Nat.eq_dec p i) as [-> | Hne].
  - rewrite D1. simpl.
    destruct Hc as [-> | [_ Hc]]; [|congruence]. simpl.
    destruct n as [|n]; [lia|]. simpl scanForward. rewrite D2. simpl.
    replace (i + S (S n) - S i)%nat with (S n) by lia. reflexivity.
  - replace (p + S n - S i)%nat with (S p + n - S i)%nat by lia.
    destruct (charAt line p =? "/")%char eqn:E.
    + apply Ascii.eqb_eq in E.
      destruct Hc as [-> | [_ Hc]]; [|congruence]. simpl.
      apply IH; try lia; [split; assumption | |].
      * intros j Hj. apply Hno. lia.
      * right. split; [reflexivity|]. intros E'.
        apply (Hno p); [lia | split; assumption].
    + apply IH; try lia; [split; assumption | |].
      * intros j Hj. apply Hno. lia.
      * left. destruct Hc as [-> | [-> _]]; reflexivity.
Qed.

Lemma scanBackward_ends_with_close line s n c :
  (3 <= n)%nat ->
  charAt line (s + n) <> "*"%char -> charAt line (s + n) <> "/"%char ->
  charAt line (s + n - 1) = "/"%char ->
  charAt line (s + n - 2) = "*"%char ->
  scanBackward line s n c = -1.
Proof.
  intros Hn H1 H2 H3 H4.
  destruct n as [|[|[|n]]]; try lia.
  cbn [scanBackward].
  apply Ascii.eqb_neq in H1, H2. rewrite H1, H2.
  replace (s + S (S n))%nat with (s + S (S (S n)) - 1)%nat by lia.
  rewrite H3. simpl.
  replace (s + S n)%nat with (s + S (S (S n)) - 2)%nat by lia.
  rewrite H4. reflexivity.
Qed.

Lemma scanBackward_ends_with_open line s n c :
  (3 <= n)%nat ->
  charAt line (s + n) <> "*"%char -> charAt line (s + n) <> "/"%char ->
  charAt line (s + n - 1) = "*"%char ->
  charAt line (s + n - 2) = "/"%char ->
  scanBackward line s n c = 1.
Proof.
  intros Hn H1 H2 H3 H4.
  destruct n as [|[|[|n]]]; try lia.
  cbn [scanBackward].
  apply Ascii.eqb_neq in H1, H2. rewrite H1, H2.
  replace (s + S (S n))%nat with (s + S (S (S n)) - 1)%nat by lia.
  rewrite H3. simpl.
  replace (s + S n)%nat with (s + S (S (S n)) - 2)%nat by lia.
  rewrite H4. reflexivity.
Qed.

Lemma findNestedBlockComments_needs_no line startPos endPos :
  (forall i, (startPos <= i)%nat -> (S i < endPos)%nat -> ~ double_slash line i) ->
  findNestedBlockComments line startPos endPos = 0.
Proof.
  intros Hno. unfold findNestedBlockComments.
  apply scanForward_no_double_slash; [|now left].
  intros i Hi Hn. apply Hno; lia.
Qed.

(** X1.  [findNestedBlockComments] only ever returns -1, 0 or 1, so the
    [default] case of the switch in [validate] is never taken. *)
Theorem findNestedBlockComments_three_values (line : string) (startPos endPos : nat) :
  findNestedBlockComments line startPos endPos = -1 \/
  findNestedBlockComments line startPos endPos = 0 \/
  findNestedBlockComments line startPos endPos = 1.
Proof. apply (findNestedBlockComments_range line startPos endPos). Qed.

(** X2.  Without two slashes in a row between [startPos] and [endPos] the
    backward search never starts and the result is 0. *)
Theorem findNestedBlockComments_needs_double_slash
        (line : string) (startPos endPos : nat) :
  (forall i, (startPos <= i)%nat -> (S i < endPos)%nat -> ~ double_slash line i) ->
  findNestedBlockComments line startPos endPos = 0.
Proof.
  apply findNestedBlockComments_needs_no.
Qed.

Lemma findNestedBlockComments_needs_double_slash_witness :
  (forall i, (2 <= i)%nat -> (S i < 10)%nat -> ~ double_slash "/* comment" i) /\
  findNestedBlockComments "/* comment" 2 10 = 0.
Proof.
  assert (H : forall i, (2 <= i)%nat -> (S i < 10)%nat ->
                        ~ double_slash "/* comment" i).
  { intros i Hi Hn [D _].
    do 10 (destruct i as [|i]; [try lia; discriminate D|]). lia. }
  split; [exact H|].
  exact (findNestedBlockComments_needs_double_slash "/* comment"%string 2 10 H).
Defined.

(** X3.  When the range holds two slashes in a row and the text behind them
    ends in an asterisk and a slash, the character at [endPos] being
    neither, the result is -1: the comment has ended, whatever else the
    text holds. *)
Theorem findNestedBlockComments_close_last
        (line : string) (startPos endPos i : nat) :
  (startPos <= i)%nat -> (S i + 3 <= endPos)%nat ->
  double_slash line i ->
  (forall j, (startPos <= j < i)%nat -> ~ double_slash line j) ->
  charAt line endPos <> "*"%char -> charAt line endPos <> "/"%char ->
  charAt line (endPos - 1) = "/"%char ->
  charAt line (endPos - 2) = "*"%char ->
  findNestedBlockComments line startPos endPos = -1.
Proof.
  intros Hi Hn D Hno H1 H2 H3 H4. unfold findNestedBlockComments.
  rewrite (scanForward_first_double_slash line i) by (auto; lia).
  replace (startPos + (endPos - startPos) - S i)%nat with (endPos - S i)%nat by lia.
  apply scanBackward_ends_with_close;
    replace (S i + (endPos - S i))%nat with endPos by lia; auto; lia.
Qed.

Lemma findNestedBlockComments_close_last_witness :
  findNestedBlockComments "a // b */" 0 9 = -1.
Proof.
  apply (findNestedBlockComments_close_last "a // b */"%string 0 9 2).
  - lia.
  - simpl. lia.
  - split; reflexivity.
  - intros j Hj [D1 D2].
    destruct j as [|[|j]]; [discriminate D1 | discriminate D1 | lia].
  - discriminate.
  - discriminate.
  - reflexivity.
  - reflexivity.
Defined.

(** X4.  In the same situation, text that ends in a slash and an asterisk
    gives 1: a comment has begun, whether or not earlier ones ended. *)
Theorem findNestedBlockComments_open_last
        (line : string) (startPos endPos i : nat) :
  (startPos <= i)%nat -> (S i + 3 <= endPos)%nat ->
  double_slash line i ->
  (forall j, (startPos <= j < i)%nat -> ~ double_slash line j) ->
  charAt line endPos <> "*"%char -> charAt line endPos <> "/"%char ->
  charAt line (endPos - 1) = "*"%char ->
  charAt line (endPos - 2) = "/"%char ->
  findNestedBlockComments line startPos endPos = 1.
Proof.
  intros Hi Hn D Hno H1 H2 H3 H4. unfold findNestedBlockComments.
  rewrite (scanForward_first_double_slash line i) by (auto; lia).
  replace (startPos + (endPos - startPos) - S i)%nat with (endPos - S i)%nat by lia.
  apply scanBackward_ends_with_open;
    replace (S i + (endPos - S i))%nat with endPos by lia; auto; lia.
Qed.

Lemma findNestedBlockComments_open_last_witness :
  findNestedBlockComments "// */ /*" 0 8 = 1.
Proof.
  apply (findNestedBlockComments_open_last "// */ /*"%string 0 8 0).
  - lia.
  - simpl. lia.
  - split; reflexivity.
  - intros j Hj. lia.
  - discriminate.
  - discriminate.
  - reflexivity.
  - reflexivity.
Defined.

(** ** unwindTokens *)

Lemma unwindTokens_None queue t : unwindTokens queue t = None <-> ~ In t queue.
Proof.
  induction queue as [|a queue IH]; simpl.
  - tauto.
  - destruct (Z.eqb_spec a t) as [-> | Hne].
    + split; [discriminate | tauto].
    + rewrite IH. split; [intros H [E|I]; [congruence | tauto] | tauto].
Qed.

Lemma unwindTokens_Some queue t : forall rest,
  unwindTokens queue t = Some rest ->
  exists above, queue = above ++ t :: rest /\ ~ In t above /\
                (List.length rest < List.length queue)%nat.
Proof.
  induction queue as [|a queue IH]; simpl; intros rest; [discriminate|].
  destruct (Z.eqb_spec a t) as [-> | Hne].
  - intros [= <-]. exists []. simpl. split; [reflexivity | split; [tauto | lia]].
  - intros H. destruct (IH _ H) as (above & -> & Hn & Hl).
    exists (a :: above). simpl. split; [reflexivity|].
    split; [intros [E|I]; [congruence | tauto] | lia].
Qed.

(** X5.  [unwindTokens] runs into its assertion exactly when the token is
    not in the queue; otherwise what it leaves is what lay below the
    topmost occurrence of the token, so at least one entry is gone. *)
Theorem unwindTokens_fails_iff_absent (queue : list Z) (t : Z) :
  (unwindTokens queue t = None <-> ~ In t queue) /\
  (forall rest,
      unwindTokens queue t = Some rest ->
      exists above, queue = above ++ t :: rest /\ ~ In t above /\
                    (List.length rest < List.length queue)%nat).
Proof. split; [apply unwindTokens_None | apply unwindTokens_Some]. Qed.

Lemma unwindTokens_fails_iff_absent_witness :
  exists above,
    [2; 8; 4] = above ++ 8 :: [4] /\ ~ In 8 above /\
    (List.length [4] < List.length [2; 8; 4])%nat.
Proof.
  exact (proj2 (unwindTokens_fails_iff_absent [2; 8; 4] 8) [4] eq_refl).
Defined.

(** ** What validate keeps *)

Section Kept.
Context {L : Lexer}.

Lemma contains_count queue t :
  contains queue t = false <-> count_occ Z.eq_dec queue t = O.
Proof.
  rewrite <- count_occ_not_In. rewrite <- contains_In.
  destruct (contains queue t); split; congruence.
Qed.

Lemma unwindTokens_once queue below :
  markers_once queue ->
  unwindTokens queue (tok.to_int tok.slash) = Some below ->
  contains below (tok.to_int tok.slash) = false /\ markers_once below.
Proof.
  unfold markers_once. intros Hc Hu.
  destruct (unwindTokens_Some _ _ _ Hu) as (above & -> & _ & _).
  rewrite count_occ_app in Hc. simpl in Hc.
  assert (E : count_occ Z.eq_dec below 8 = O) by lia.
  split; [now apply contains_count | simpl; lia].
Qed.

Lemma markers_once_tl queue : markers_once queue -> markers_once (tl queue).
Proof.
  unfold markers_once. destruct queue as [|a queue]; simpl; [lia|].
  destruct (Z.eq_dec a 8); lia.
Qed.

Lemma markers_once_push k queue :
  k <> tok.to_int tok.slash -> markers_once queue -> markers_once (k :: queue).
Proof.
  unfold markers_once. simpl. intros Hk. destruct (Z.eq_dec k 8); [contradiction | trivial].
Qed.

Lemma markers_once_slash queue :
  contains queue (tok.to_int tok.slash) = false ->
  markers_once (tok.to_int tok.slash :: queue).
Proof.
  unfold markers_once. intros H. apply contains_count in H. simpl in *.
  rewrite H. reflexivity.
Qed.

Lemma contains_tl_eq q k t :
  back_or q (-1) = k -> k <> t -> contains (tl q) t = contains q t.
Proof.
  destruct q as [|a q]; cbn [back_or tl]; [reflexivity|].
  intros -> Hk. rewrite contains_cons.
  destruct (Z.eqb_spec t k); [congruence | reflexivity].
Qed.

Lemma body_once line s e s' :
  in_step s -> body line s = Ok (e, s') ->
  markers_once (ParenStack s') /\
  (forall T, e = ToCondition T -> in_step s').
Proof.
  intros (Hml & Hq & Hct). unfold body, brackets, in_step.
  destruct (LexPunctuatorAndAdvance line (curPos s)) as [p T].
  destruct s as [R c ml ct q]; simpl in *.
  destruct T as [k].
  pose proof (markers_once_tl _ Hq) as Ht.
  destruct Hct as [-> | ->]; destruct k; destruct ml; cbn;
  repeat match goal with
  | |- context [unwindTokens ?q ?t] =>
    destruct (unwindTokens q t) eqn:?
  | |- context [findNestedBlockComments ?l ?a ?b =? ?n] =>
    destruct (findNestedBlockComments l a b =? n)
  | |- context [LexQuotedStringAndAdvance ?l ?p ?T] =>
    destruct (LexQuotedStringAndAdvance l p T)
  | |- context [back_or ?q ?d =? ?n] =>
    destruct (Z.eqb_spec (back_or q d) n)
  end;
    try discriminate; intros [= <- <-]; cbn [ParenStack multilineComment commentTok];
    (split; [| intros T' [=]; repeat split ]);
    auto;
    try (apply markers_once_push; [discriminate | assumption]);
    try (apply markers_once_slash; now symmetry);
    try (match goal with
         | H : unwindTokens ?q 8 = Some ?l |- markers_once ?l =>
           exact (proj2 (unwindTokens_once q l Hq H))
         | H : unwindTokens ?q 8 = Some ?l |- false = contains ?l 8 =>
           symmetry; exact (proj1 (unwindTokens_once q l Hq H))
         end);
    try (rewrite (contains_tl_eq q _ 8) by (eassumption || discriminate); assumption).
Qed.

Lemma loop_once line fuel : forall s sf,
  in_step s -> loop fuel line s = Ok sf -> markers_once (ParenStack sf).
Proof.
  induction fuel as [|fuel IH]; intros s sf Hs; [discriminate|].
  simpl. destruct (body line s) as [[[T|] s']| |] eqn:E; try discriminate.
  - destruct (body_once _ _ _ _ Hs E) as [Hq Hn].
    destruct (isNot T tok.eof); [apply IH; eauto | now intros [= <-]].
  - destruct (body_once _ _ _ _ Hs E) as [Hq _]. now intros [= <-].
Qed.

Lemma entry_in_step v : markers_once (m_ParenStack v) -> in_step (entry v).
Proof.
  intros H. unfold in_step, entry. simpl. repeat split; [assumption|].
  destruct (inBlockComment v); auto.
Qed.

Lemma validate_once v line res v' :
  markers_once (m_ParenStack v) ->
  validate v line = Ok (res, v') ->
  markers_once (m_ParenStack v').
Proof.
  intros Hq V. destruct (validate_inv _ _ _ _ V) as (s & E & _ & -> & _).
  eapply loop_once; [|exact E]. now apply entry_in_step.
Qed.

Lemma feed_once lines : forall v v',
  markers_once (m_ParenStack v) ->
  feed v lines = Ok v' ->
  markers_once (m_ParenStack v').
Proof.
  induction lines as [|line lines IH]; simpl; intros v v' Hq.
  - now intros [= <-].
  - destruct (validate v line) as [[res v1]| |] eqn:V; try discriminate.
    apply IH. eapply validate_once; eassumption.
Qed.

End Kept.

(** X6.  Starting from a new validator, whatever lines are fed, the stack
    only ever holds the three opening brackets and the in-block-comment
    marker: no closing bracket, no literal start and no other token kind is
    ever on it. *)
Theorem stack_holds_openers_and_marker
        (L : Lexer) (lines : list string) (v : InputValidator) :
  feed fresh lines = Ok v ->
  Forall marker (m_ParenStack v).
Proof. apply feed_markers. constructor. Qed.

Lemma stack_holds_openers_and_marker_witness :
  Forall marker [2; 8; 4].
Proof.
  exact (stack_holds_openers_and_marker MetaLexer.lexer
           ["int f() {"%string; "/* g("%string]
           {| m_Input := ("int f() {" ++ newline ++ "/* g(")%string;
              m_ParenStack := [2; 8; 4] |}
           ltac:(vm_compute; reflexivity)).
Defined.

(** X7.  Block comments do not nest: starting from a new validator, the
    stack never holds more than one in-block-comment marker. *)
Theorem at_most_one_comment_marker
        (L : Lexer) (lines : list string) (v : InputValidator) :
  feed fresh lines = Ok v ->
  (count_occ Z.eq_dec (m_ParenStack v) (tok.to_int tok.slash) <= 1)%nat.
Proof. apply feed_once. unfold markers_once. simpl. lia. Qed.

Lemma at_most_one_comment_marker_witness :
  (count_occ Z.eq_dec [8%Z; 4%Z] (tok.to_int tok.slash) <= 1)%nat.
Proof.
  exact (at_most_one_comment_marker MetaLexer.lexer
           ["{ /* a /* b"%string]
           {| m_Input := "{ /* a /* b"; m_ParenStack := [8; 4] |}
           ltac:(vm_compute; reflexivity)).
Defined.

(** X8.  Starting from a new validator, every call appends its line to the
    logical buffer, behind a real newline when the buffer is not empty and
    behind nothing when it is. *)
Theorem buffer_appends_line
        (L : Lexer) (lines : list string) (v : InputValidator)
        (line : string) (res : ValidationResult) (v' : InputValidator) :
  feed fresh lines = Ok v ->
  validate v line = Ok (res, v') ->
  m_Input v' =
  ((if Nat.eqb (String.length (m_Input v)) 0 then EmptyString
    else m_Input v ++ newline) ++ line)%string.
Proof. apply feed_join_newline. Qed.

Lemma buffer_appends_line_witness :
  ("int f() {" ++ newline ++ "}")%string =
  ((if Nat.eqb (String.length "int f() {") 0 then EmptyString
    else "int f() {" ++ newline) ++ "}")%string.
Proof.
  exact (buffer_appends_line MetaLexer.lexer ["int f() {"%string]
           {| m_Input := "int f() {"; m_ParenStack := [4] |}
           "}"%string kComplete
           {| m_Input := ("int f() {" ++ newline ++ "}")%string;
              m_ParenStack := [] |}
           ltac:(vm_compute; reflexivity) ltac:(vm_compute; reflexivity)).
Defined.

(** ** Lines without comment tokens *)

Section PlainLines.
Context {L : Lexer}.

Lemma charAt_EmptyString pos : charAt EmptyString pos = NUL.
Proof. destruct pos; reflexivity. Qed.

Lemma LexPunctuator_empty_line pos :
  getKind (snd (LexPunctuatorAndAdvance EmptyString pos)) = tok.eof.
Proof.
  pose proof (LexPunctuator_advances EmptyString pos) as H. simpl in H.
  destruct (getKind (snd (LexPunctuatorAndAdvance EmptyString pos)));
    try reflexivity; (specialize (H ltac:(discriminate)); lia).
Qed.

Lemma findNestedBlockComments_range0 startPos endPos :
  findNestedBlockComments EmptyString startPos endPos = 0.
Proof.
  apply findNestedBlockComments_needs_no.
  intros i _ _ [D _]. rewrite charAt_EmptyString in D. discriminate.
Qed.

Lemma validate_empty_line v :
  validate v EmptyString =
  Ok (match m_ParenStack v with [] => kComplete | _ => kIncomplete end,
      {| m_Input := join (m_Input v) (m_ParenStack v) EmptyString;
         m_ParenStack := m_ParenStack v |}).
Proof.
  unfold validate. cbn [String.length loop]. unfold body, brackets.
  pose proof (LexPunctuator_empty_line (curPos (entry v))) as HK.
  destruct (LexPunctuatorAndAdvance EmptyString (curPos (entry v))) as [p [k]].
  simpl in HK. subst k. unfold entry. cbn [Res curPos multilineComment commentTok ParenStack getKind].
  destruct (inBlockComment v) eqn:B; cbn.
  - rewrite findNestedBlockComments_range0. cbn. unfold finish. cbn.
    rewrite classify_Complete by reflexivity. reflexivity.
  - unfold finish. rewrite classify_Complete by reflexivity. reflexivity.
Qed.

End PlainLines.

Section PlainRefinement.
Context {L : Lexer}.

Lemma loop_run_stack_None line fuel : forall s sf,
  loop fuel line s = Ok sf ->
  multilineComment s = false ->
  commentTok s = tok.to_int tok.slash ->
  Forall (fun k => plain k = true) (tokens fuel line (curPos s)) ->
  run_stack (tokens fuel line (curPos s)) (ParenStack s) = None ->
  Res sf = kMismatch.
Proof.
  induction fuel as [|fuel IH]; intros s sf; [discriminate|].
  simpl. unfold body, brackets.
  destruct (LexPunctuatorAndAdvance line (curPos s)) as [p T].
  destruct s as [R c ml ct q]; simpl. intros E -> ->. revert E.
  destruct T as [k]. simpl.
  destruct k; cbn; intros E Hp Hr;
    try (inversion Hp; discriminate);
    try discriminate;
    try (inversion Hp; subst; exact (IH _ _ E eq_refl eq_refl H2 Hr));
    rewrite top_matches_back_or in Hr; cbn in Hr;
    match type of Hr with context [?a =? ?n] => destruct (a =? n) end;
    cbn in E;
    try (injection E as <-; reflexivity);
    inversion Hp; subst; exact (IH _ _ E eq_refl eq_refl H2 Hr).
Qed.

Lemma entry_outside v :
  inBlockComment v = false ->
  multilineComment (entry v) = false /\
  commentTok (entry v) = tok.to_int tok.slash.
Proof. unfold entry. simpl. intros ->. auto. Qed.

End PlainRefinement.

(** X9.  The empty line changes nothing on the stack, for every lexer and
    from every state, inside a block comment or not: the result is
    [kComplete] when the stack is empty and [kIncomplete] when it is
    not. *)
Theorem empty_line_keeps_stack (L : Lexer) (v : InputValidator) :
  validate v EmptyString =
  Ok (match m_ParenStack v with [] => kComplete | _ => kIncomplete end,
      {| m_Input := join (m_Input v) (m_ParenStack v) EmptyString;
         m_ParenStack := m_ParenStack v |}).
Proof. apply validate_empty_line. Qed.

(** X10.  Outside a block comment, on a line whose tokens are brackets and
    tokens the validator passes over (no slash, no asterisk, no literal),
    [validate] is plain bracket matching: when the matching goes through,
    the stack it leaves is the stack of the matching, and the result is
    [kComplete] or [kIncomplete] as that stack is empty or not. *)
Theorem plain_line_is_bracket_matching
        (L : Lexer) (v : InputValidator) (line : string) (queue : list Z) :
  inBlockComment v = false ->
  Forall (fun k => plain k = true) (tokens (S (String.length line)) line 0) ->
  run_stack (tokens (S (String.length line)) line 0) (m_ParenStack v) = Some queue ->
  validate v line =
  Ok (match queue with [] => kComplete | _ => kIncomplete end,
      {| m_Input := join (m_Input v) queue line; m_ParenStack := queue |}).
Proof.
  intros Hv Hp Hr.
  destruct (validate_returns v line) as (s & E & V). rewrite V.
  destruct (entry_outside v Hv) as [Hm Hc].
  destruct (loop_run_stack line _ _ _ queue E Hm Hc Hp Hr) as [Hq HR].
  unfold finish. rewrite (classify_Complete s HR), Hq. reflexivity.
Qed.

Lemma plain_line_is_bracket_matching_witness :
  @validate MetaLexer.lexer {| m_Input := "f(a,"; m_ParenStack := [2] |} "b[0]) {" =
  Ok (kIncomplete,
      {| m_Input := join "f(a," [4] "b[0]) {"; m_ParenStack := [4] |}).
Proof.
  apply (plain_line_is_bracket_matching MetaLexer.lexer
           {| m_Input := "f(a,"; m_ParenStack := [2] |} "b[0]) {"%string [4]).
  - reflexivity.
  - vm_compute. repeat constructor.
  - vm_compute. reflexivity.
Defined.

(** X11.  On such a line, when the matching fails (a closing bracket meets
    an empty stack or the wrong opener), [validate] returns [kMismatch]. *)
Theorem plain_line_wrong_closer_mismatch
        (L : Lexer) (v : InputValidator) (line : string) :
  inBlockComment v = false ->
  Forall (fun k => plain k = true) (tokens (S (String.length line)) line 0) ->
  run_stack (tokens (S (String.length line)) line 0) (m_ParenStack v) = None ->
  exists v', validate v line = Ok (kMismatch, v').
Proof.
  intros Hv Hp Hr.
  destruct (validate_returns v line) as (s & E & V). rewrite V.
  destruct (entry_outside v Hv) as [Hm Hc].
  pose proof (loop_run_stack_None line _ _ _ E Hm Hc Hp Hr) as HR.
  unfold finish. rewrite (classify_Mismatch s HR). eauto.
Qed.

Lemma plain_line_wrong_closer_mismatch_witness :
  exists v',
    @validate MetaLexer.lexer {| m_Input := "f(a,"; m_ParenStack := [2] |} "b[0]}" =
    Ok (kMismatch, v').
Proof.
  apply (plain_line_wrong_closer_mismatch MetaLexer.lexer
           {| m_Input := "f(a,"; m_ParenStack := [2] |} "b[0]}"%string).
  - reflexivity.
  - vm_compute. repeat constructor.
  - vm_compute. reflexivity.
Defined.

(** X12.  Outside a block comment, a line of balanced brackets and tokens
    the validator passes over leaves the stack as it found it; on a new
    validator it is [kComplete]. *)
Theorem balanced_line_keeps_stack
        (L : Lexer) (v : InputValidator) (line : string) :
  inBlockComment v = false ->
  Forall (fun k => plain k = true) (tokens (S (String.length line)) line 0) ->
  balanced (tokens (S (String.length line)) line 0) ->
  validate v line =
  Ok (match m_ParenStack v with [] => kComplete | _ => kIncomplete end,
      {| m_Input := join (m_Input v) (m_ParenStack v) line;
         m_ParenStack := m_ParenStack v |}).
Proof.
  intros Hv Hp Hb.
  destruct (validate_returns v line) as (s & E & V). rewrite V.
  destruct (entry_outside v Hv) as [Hm Hc].
  pose proof (run_stack_balanced _ Hb [] (m_ParenStack v)) as Hr.
  rewrite app_nil_r in Hr.
  destruct (loop_run_stack line _ _ _ _ E Hm Hc Hp Hr) as [Hq HR].
  unfold finish. rewrite (classify_Complete s HR), Hq. reflexivity.
Qed.

Lemma balanced_line_keeps_stack_witness :
  @validate MetaLexer.lexer {| m_Input := "{"; m_ParenStack := [4] |} "g(a[1]);" =
  Ok (kIncomplete,
      {| m_Input := join "{" [4] "g(a[1]);"; m_ParenStack := [4] |}).
Proof.
  apply (balanced_line_keeps_stack MetaLexer.lexer
           {| m_Input := "{"; m_ParenStack := [4] |} "g(a[1]);"%string).
  - reflexivity.
  - vm_compute. repeat constructor.
  - vm_compute.
    apply (balanced_wrap tok.l_paren [tok.l_square; tok.r_square] [tok.other]).
    + reflexivity.
    + apply (balanced_wrap tok.l_square [] []); [reflexivity | constructor | constructor].
    + apply balanced_skip; [reflexivity | constructor].
Defined.

(** ** Lines inside a block comment *)

Section CommentGoesOn.
Context {L : Lexer}.

Lemma body_comment_goes_on line s above below :
  no_comment_tokens line ->
  (forall i, ~ double_slash line i) ->
  multilineComment s = true ->
  commentTok s = tok.to_int tok.asterik ->
  ParenStack s = above ++ tok.to_int tok.slash :: below ->
  exists e s' above',
    body line s = Ok (e, s') /\
    Res s' = Res s /\
    ParenStack s' = above' ++ tok.to_int tok.slash :: below /\
    multilineComment s' = true /\
    commentTok s' = tok.to_int tok.asterik.
Proof.
  intros Hno Hds Hm Hc Hq.
  destruct (Hno (curPos s)) as [H1 H2].
  destruct (LexPunctuatorAndAdvance line (curPos s)) as [p T] eqn:EL.
  simpl in H1, H2.
  destruct (opening (getKind T) || closing (getKind T)) eqn:B.
  - exists (ToCondition T). do 2 eexists.
    split; [eapply body_bracket_in_comment; eauto|].
    simpl. auto.
  - unfold body, brackets. rewrite EL.
    destruct s as [R c ml ct q]; simpl in *. subst ml ct q.
    destruct T as [k]. simpl in *.
    destruct k; try discriminate; try congruence; cbn.
    + destruct (LexQuotedStringAndAdvance line p _) as [p' T'].
      do 2 eexists. exists above. simpl. auto.
    + destruct (LexQuotedStringAndAdvance line p _) as [p' T'].
      do 2 eexists. exists above. simpl. auto.
    + do 2 eexists. exists above. simpl. auto.
    + rewrite findNestedBlockComments_needs_no by (intros; apply Hds).
      cbn. do 2 eexists. exists above. simpl. auto.
    + do 2 eexists. exists above. simpl. auto.
Qed.

Lemma loop_comment_goes_on line fuel : forall s sf above below,
  no_comment_tokens line ->
  (forall i, ~ double_slash line i) ->
  multilineComment s = true ->
  commentTok s = tok.to_int tok.asterik ->
  ParenStack s = above ++ tok.to_int tok.slash :: below ->
  loop fuel line s = Ok sf ->
  Res sf = Res s /\
  exists above', ParenStack sf = above' ++ tok.to_int tok.slash :: below.
Proof.
  induction fuel as [|fuel IH]; intros s sf above below Hno Hds Hm Hc Hq;
    [discriminate|].
  simpl.
  destruct (body_comment_goes_on line s above below Hno Hds Hm Hc Hq)
    as (e & s' & above' & -> & HR & Hq' & Hm' & Hc').
  destruct e as [T|].
  - destruct (isNot T tok.eof).
    + intros E. destruct (IH _ _ _ _ Hno Hds Hm' Hc' Hq' E) as [HR' Hx].
      split; [congruence | exact Hx].
    + intros [= <-]. eauto.
  - intros [= <-]. eauto.
Qed.

End CommentGoesOn.

(** The characters of a line: what [charAt] reads is a character of the
    line or the terminating NUL. *)
Lemma charAt_cases line pos :
  charAt line pos = NUL \/ In (charAt line pos) (list_ascii_of_string line).
Proof.
  unfold charAt. revert pos. induction line as [|a line IH]; intros pos; simpl.
  - left. destruct pos; reflexivity.
  - destruct pos as [|pos]; [right; left; reflexivity|].
    destruct (IH pos) as [H|H]; [left | right; right]; exact H.
Qed.

Lemma MetaLexer_LexPunctuator_slash c :
  MetaLexer.LexPunctuator c = Some tok.slash -> c = "/"%char.
Proof.
  unfold MetaLexer.LexPunctuator. intros H.
  destruct (find _ MetaLexer.punctuators) as [[c' k]|] eqn:F; [|discriminate].
  simpl in H. injection H as ->.
  destruct (find_some _ _ F) as [Hin E]. simpl in E.
  apply Ascii.eqb_eq in E. subst c'.
  unfold MetaLexer.punctuators in Hin. simpl in Hin.
  repeat (destruct Hin as [Hin|Hin]; [injection Hin as <-; try discriminate; try reflexivity|]).
  contradiction.
Qed.

Lemma MetaLexer_LexPunctuator_asterik c :
  MetaLexer.LexPunctuator c = Some tok.asterik -> c = "*"%char.
Proof.
  unfold MetaLexer.LexPunctuator. intros H.
  destruct (find _ MetaLexer.punctuators) as [[c' k]|] eqn:F; [|discriminate].
  simpl in H. injection H as ->.
  destruct (find_some _ _ F) as [Hin E]. simpl in E.
  apply Ascii.eqb_eq in E. subst c'.
  unfold MetaLexer.punctuators in Hin. simpl in Hin.
  repeat (destruct Hin as [Hin|Hin]; [injection Hin as <-; try discriminate; try reflexivity|]).
  contradiction.
Qed.

Lemma MetaLexer_scan_no_comment_tokens line :
  (forall i, charAt line i <> "/"%char /\ charAt line i <> "*"%char) ->
  forall fuel pos,
    getKind (snd (MetaLexer.scan fuel line pos)) <> tok.slash /\
    getKind (snd (MetaLexer.scan fuel line pos)) <> tok.asterik.
Proof.
  intros Hc. induction fuel as [|fuel IH]; intros pos; simpl.
  - split; discriminate.
  - destruct ((charAt line pos =? "/") && _)%char; [split; discriminate|].
    destruct (charAt line pos =? NUL)%char; [split; discriminate|].
    destruct (MetaLexer.LexPunctuator (charAt line pos)) as [k|] eqn:E; [|apply IH].
    simpl. destruct (Hc pos) as [H1 H2]. split; intros ->.
    + apply MetaLexer_LexPunctuator_slash in E. contradiction.
    + apply MetaLexer_LexPunctuator_asterik in E. contradiction.
Qed.

(** A line without the characters slash and asterisk has no comment tokens
    for [MetaLexer.lexer] and no two slashes in a row. *)
Lemma MetaLexer_no_comment_tokens line :
  forallb (fun c => negb (c =? "/")%char && negb (c =? "*")%char)
          (list_ascii_of_string line) = true ->
  no_comment_tokens (L := MetaLexer.lexer) line /\
  (forall i, ~ double_slash line i).
Proof.
  intros H. rewrite forallb_forall in H.
  assert (Hc : forall i, charAt line i <> "/"%char /\ charAt line i <> "*"%char).
  { intros i. destruct (charAt_cases line i) as [-> | Hin].
    - split; discriminate.
    - apply H in Hin. apply andb_true_iff in Hin. destruct Hin as [H1 H2].
      apply negb_true_iff in H1, H2. apply Ascii.eqb_neq in H1, H2. auto. }
  split.
  - intros pos. apply (MetaLexer_scan_no_comment_tokens line Hc).
  - intros i [D _]. destruct (Hc i) as [H1 _]. contradiction.
Qed.

(** X13.  Inside a block comment, a line on which the lexer gives neither a
    slash nor an asterisk, and which holds no two slashes in a row, leaves
    the validator inside the comment: the result is [kIncomplete], never
    [kMismatch], and the in-block-comment marker and everything below it
    are still on the stack. *)
Theorem comment_line_goes_on
        (L : Lexer) (v : InputValidator) (line : string) (above below : list Z) :
  no_comment_tokens line ->
  (forall i, ~ double_slash line i) ->
  m_ParenStack v = above ++ tok.to_int tok.slash :: below ->
  exists v' above',
    validate v line = Ok (kIncomplete, v') /\
    m_ParenStack v' = above' ++ tok.to_int tok.slash :: below /\
    inBlockComment v' = true.
Proof.
  intros Hno Hds Hq.
  destruct (validate_returns v line) as (s & E & V). rewrite V.
  assert (Hin : inBlockComment v = true).
  { unfold inBlockComment. rewrite Hq. apply contains_In.
    apply in_or_app. right. left. reflexivity. }
  assert (Hm : multilineComment (entry v) = true) by exact Hin.
  assert (Hc : commentTok (entry v) = tok.to_int tok.asterik)
    by (unfold entry; simpl; now rewrite Hin).
  destruct (loop_comment_goes_on line (S (String.length line)) (entry v) s
              above below Hno Hds Hm Hc Hq E) as (HR & above' & Hq').
  unfold finish. simpl in HR. rewrite (classify_Complete s HR), Hq'.
  eexists. exists above'. split.
  - destruct above'; reflexivity.
  - split; [reflexivity|].
    unfold inBlockComment. simpl. apply contains_In.
    apply in_or_app. right. left. reflexivity.
Qed.

Lemma comment_line_goes_on_witness :
  exists v' above',
    @validate MetaLexer.lexer {| m_Input := "{ /* comment"; m_ParenStack := [8; 4] |}
              "still } comment (" = Ok (kIncomplete, v') /\
    m_ParenStack v' = above' ++ tok.to_int tok.slash :: [4] /\
    inBlockComment v' = true.
Proof.
  destruct (MetaLexer_no_comment_tokens "still } comment (" eq_refl) as [H1 H2].
  exact (comment_line_goes_on MetaLexer.lexer
           {| m_Input := "{ /* comment"; m_ParenStack := [8; 4] |}
           "still } comment ("%string [] [4] H1 H2 eq_refl).
Defined.

(** ** The wait for the closing slash *)

Section ClosingSlash.
Context {L : Lexer}.

Lemma body_asterisk_keeps_wait line s p T :
  LexPunctuatorAndAdvance line (curPos s) = (p, T) ->
  getKind T = tok.asterik ->
  multilineComment s = true ->
  commentTok s = tok.to_int tok.slash ->
  body line s =
  Ok (ToCondition T,
      {| Res := Res s; curPos := p; multilineComment := true;
         commentTok := tok.to_int tok.slash; ParenStack := ParenStack s |}).
Proof.
  intros EL Hk Hm Hc. unfold body, brackets. rewrite EL, Hk, Hc, Hm. reflexivity.
Qed.

End ClosingSlash.

(** X14.  Inside a block comment, after an asterisk the comment can only be
    closed by the very next token: a token that is neither a slash nor an
    asterisk (nor the end of the line) cancels the wait for the slash, so
    that a later slash does not close the comment, while another asterisk
    keeps the wait and leaves the stack alone. *)
Theorem closing_slash_must_follow_asterisk :
  (forall (L : Lexer) (line : string) (s : Locals) (e : Exit) (s' : Locals),
      multilineComment s = true ->
      commentTok s = tok.to_int tok.slash ->
      next_kind line s <> tok.slash ->
      next_kind line s <> tok.asterik ->
      next_kind line s <> tok.eof ->
      body line s = Ok (e, s') ->
      commentTok s' = tok.to_int tok.asterik) /\
  (forall (L : Lexer) (line : string) (s : Locals) (p : nat) (T : Token),
      LexPunctuatorAndAdvance line (curPos s) = (p, T) ->
      getKind T = tok.asterik ->
      multilineComment s = true ->
      commentTok s = tok.to_int tok.slash ->
      body line s =
      Ok (ToCondition T,
          {| Res := Res s; curPos := p; multilineComment := true;
             commentTok := tok.to_int tok.slash; ParenStack := ParenStack s |})).
Proof.
  split.
  - intros L line s e s'. apply body_cancels_wait_in_comment.
  - intros L line s p T. apply body_asterisk_keeps_wait.
Qed.

Lemma closing_slash_must_follow_asterisk_witness :
  @validate MetaLexer.lexer {| m_Input := "/*"; m_ParenStack := [8] |} "a *, / b" =
  Ok (kIncomplete,
      {| m_Input := ("/*" ++ newline ++ "a *, / b")%string; m_ParenStack := [8] |}) /\
  body (L := MetaLexer.lexer) "a *, / b"
       {| Res := kComplete; curPos := 3; multilineComment := true;
          commentTok := 8; ParenStack := [8] |} =
  Ok (ToCondition {| getKind := tok.other |},
      {| Res := kComplete; curPos := 4; multilineComment := true;
         commentTok := 10; ParenStack := [8] |}) /\
  commentTok {| Res := kComplete; curPos := 4; multilineComment := true;
                commentTok := 10; ParenStack := [8] |} = tok.to_int tok.asterik.
Proof.
  split; [vm_compute; reflexivity|].
  assert (B : body (L := MetaLexer.lexer) "a *, / b"
       {| Res := kComplete; curPos := 3; multilineComment := true;
          commentTok := 8; ParenStack := [8] |} =
  Ok (ToCondition {| getKind := tok.other |},
      {| Res := kComplete; curPos := 4; multilineComment := true;
         commentTok := 10; ParenStack := [8] |})) by (vm_compute; reflexivity).
  split; [exact B|].
  apply (proj1 closing_slash_must_follow_asterisk MetaLexer.lexer "a *, / b"%string
           {| Res := kComplete; curPos := 3; multilineComment := true;
              commentTok := 8; ParenStack := [8] |} _ _
           eq_refl eq_refl
           ltac:(vm_compute; discriminate) ltac:(vm_compute; discriminate)
           ltac:(vm_compute; discriminate) B).
Defined.

(** * Paths.cpp *)

(** ** CopyIncludePaths *)

Lemma push_back_if_app {A : Type} (c : bool) (v w : list A) (x : A) :
  push_back_if c (v ++ w) x = v ++ push_back_if c w x.
Proof. unfold push_back_if, push_back. destruct c; [now rewrite app_assoc | reflexivity]. Qed.

Lemma push_back_app {A : Type} (v w : list A) (x : A) :
  push_back (v ++ w) x = v ++ push_back w x.
Proof. unfold push_back. now rewrite app_assoc. Qed.

Lemma push_group_flags_app E incpaths withSystem withFlags :
  push_group_flags E incpaths withSystem withFlags =
  option_map (app incpaths) (push_group_flags E [] withSystem withFlags).
Proof.
  rewrite <- (app_nil_r incpaths) at 1.
  unfold push_group_flags.
  destruct (Group E); destruct withSystem; simpl;
    rewrite ?push_back_if_app; reflexivity.
Qed.

Lemma copy_user_entries_valid entries : forall incpaths withSystem withFlags,
  existsb invalid_entry entries = false ->
  copy_user_entries entries incpaths withSystem withFlags =
  Returned (incpaths ++ flat_map (fun E => entry_arguments E withSystem withFlags) entries).
Proof.
  induction entries as [|E entries IH]; intros incpaths withSystem withFlags; simpl.
  - now rewrite app_nil_r.
  - fold (invalid_entry E). intros H. apply orb_false_iff in H. destruct H as [H1 H2].
    rewrite H1. rewrite push_group_flags_app. unfold entry_arguments.
    destruct (push_group_flags E [] withSystem withFlags) as [flags|]; simpl.
    + rewrite (IH _ _ _ H2). rewrite push_back_app. now rewrite app_assoc.
    + now rewrite (IH _ _ _ H2).
Qed.

Lemma copy_user_entries_invalid entries : forall incpaths withSystem withFlags,
  existsb invalid_entry entries = true ->
  copy_user_entries entries incpaths withSystem withFlags = Fatal "Invalid option set!".
Proof.
  induction entries as [|E entries IH]; intros incpaths withSystem withFlags; simpl.
  - discriminate.
  - fold (invalid_entry E). destruct (invalid_entry E); simpl; [reflexivity|].
    intros H. destruct (push_group_flags E incpaths withSystem withFlags); now apply IH.
Qed.

Lemma copy_system_options_app Opts incpaths withSystem withFlags :
  copy_system_options Opts incpaths withSystem withFlags =
  incpaths ++ copy_system_options Opts [] withSystem withFlags.
Proof.
  rewrite <- (app_nil_r incpaths) at 1. unfold copy_system_options.
  repeat match goal with
  | |- context [if ?c then _ else _] =>
    match c with
    | context [ResourceDir] => destruct c
    | context [ModuleCachePath] => destruct c
    end
  end; rewrite ?push_back_if_app, ?push_back_app, ?push_back_if_app; reflexivity.
Qed.

Lemma existsb_invalid_entry entries :
  existsb invalid_entry entries = true <->
  exists E, In E entries /\ IsFramework E = true /\ Group E <> frontend.Angled.
Proof.
  rewrite existsb_exists. split; intros (E & Hin & H); exists E; (split; [assumption|]).
  - unfold invalid_entry in H. apply andb_true_iff in H. destruct H as [H1 H2].
    split; [assumption|]. intros Hg. rewrite Hg in H2. discriminate.
  - destruct H as [H1 H2]. unfold invalid_entry. rewrite H1. simpl.
    destruct (Group E); try reflexivity. congruence.
Qed.

(** X15.  [CopyIncludePaths] ends the program exactly when some user entry
    is a framework outside the angled group, whatever [withSystem] and
    [withFlags] are, even for an entry that would have been skipped. *)
Theorem CopyIncludePaths_fatal_iff
        (Opts : HeaderSearchOptions) (incpaths : list string)
        (withSystem withFlags : bool) :
  CopyIncludePaths Opts incpaths withSystem withFlags = Fatal "Invalid option set!" <->
  exists E, In E (UserEntries Opts) /\ IsFramework E = true /\
            Group E <> frontend.Angled.
Proof.
  rewrite <- existsb_invalid_entry. unfold CopyIncludePaths.
  destruct (existsb invalid_entry (UserEntries Opts)) eqn:H.
  - rewrite copy_user_entries_invalid by assumption. tauto.
  - rewrite copy_user_entries_valid by assumption. split; discriminate.
Qed.

(** X16.  Without flags the result is the vector as it was, followed by
    the paths of the user entries in their order (those of the system
    groups only with [withSystem]) and, with [withSystem], by the resource
    directory when there is one: no option string is added. *)
Theorem CopyIncludePaths_without_flags
        (Opts : HeaderSearchOptions) (incpaths : list string) (withSystem : bool) :
  existsb invalid_entry (UserEntries Opts) = false ->
  CopyIncludePaths Opts incpaths withSystem false =
  Returned (incpaths
            ++ map Path (filter (fun E => withSystem || negb (system_group (Group E)))
                                (UserEntries Opts))
            ++ (if withSystem && negb (empty (ResourceDir Opts))
                then [ResourceDir Opts] else [])).
Proof.
  intros H. unfold CopyIncludePaths. simpl.
  rewrite copy_user_entries_valid by assumption.
  rewrite copy_system_options_app, <- app_assoc. do 3 f_equal.
  - clear H. induction (UserEntries Opts) as [|E entries IH]; [reflexivity|].
    simpl. rewrite IH. unfold entry_arguments, push_group_flags.
    destruct (Group E); destruct withSystem; reflexivity.
  - unfold copy_system_options. rewrite !andb_false_r. simpl.
    destruct (withSystem && negb (empty (ResourceDir Opts))); reflexivity.
Qed.

Lemma CopyIncludePaths_without_flags_witness :
  CopyIncludePaths
    {| Sysroot := "/opt"; 
       UserEntries := [ {| Path := "inc"; Group := frontend.Angled; IsFramework := false |};
                        {| Path := "/usr/include"; Group := frontend.System; IsFramework := false |};
                        {| Path := "q"; Group := frontend.Quoted; IsFramework := false |} ];
       ResourceDir := "/res"; ModuleCachePath := "/cache";
       UseStandardSystemIncludes := false; UseStandardCXXIncludes := true;
       UseLibcxx := true; Verbose := true |}
    ["old"%string] false false =
  Returned ["old"; "inc"; "q"]%string.
Proof.
  exact (CopyIncludePaths_without_flags
    {| Sysroot := "/opt"; 
       UserEntries := [ {| Path := "inc"; Group := frontend.Angled; IsFramework := false |};
                        {| Path := "/usr/include"; Group := frontend.System; IsFramework := false |};
                        {| Path := "q"; Group := frontend.Quoted; IsFramework := false |} ];
       ResourceDir := "/res"; ModuleCachePath := "/cache";
       UseStandardSystemIncludes := false; UseStandardCXXIncludes := true;
       UseLibcxx := true; Verbose := true |}
    ["old"%string] false eq_refl).
Defined.

Lemma subsequence_refl {A : Type} (l : list A) : subsequence l l.
Proof. induction l; constructor; assumption. Qed.

Lemma subsequence_app {A : Type} (s1 l1 s2 l2 : list A) :
  subsequence s1 l1 -> subsequence s2 l2 -> subsequence (s1 ++ s2) (l1 ++ l2).
Proof. induction 1; simpl; intros H2; [assumption | |]; constructor; auto. Qed.

Lemma subsequence_nil_l {A : Type} (l : list A) : subsequence [] l.
Proof. induction l; constructor; assumption. Qed.

Lemma entry_arguments_subsequence E withSystem :
  subsequence (entry_arguments E withSystem false) (entry_arguments E withSystem true).
Proof.
  unfold entry_arguments, push_group_flags.
  destruct (Group E); destruct withSystem; cbn;
    repeat (apply subsequence_refl || apply subsequence_drop).
Qed.

Lemma subsequence_app_r {A : Type} (s l l' : list A) :
  subsequence s l -> subsequence s (l ++ l').
Proof.
  intros H. rewrite <- (app_nil_r s).
  apply subsequence_app; [assumption | apply subsequence_nil_l].
Qed.

Lemma subsequence_push_back_if {A : Type} (c : bool) (s l : list A) (x : A) :
  subsequence s l -> subsequence s (push_back_if c l x).
Proof.
  intros H. unfold push_back_if, push_back.
  destruct c; [now apply subsequence_app_r | assumption].
Qed.

Lemma copy_system_options_subsequence Opts withSystem :
  subsequence (copy_system_options Opts [] withSystem false)
              (copy_system_options Opts [] withSystem true).
Proof.
  unfold copy_system_options. rewrite !andb_false_r.
  cbv beta iota zeta delta [push_back_if].
  fold (@push_back_if string).
  repeat apply subsequence_push_back_if.
  match goal with
  | |- subsequence _ (if ?c then _ else ?l) =>
    assert (H : subsequence
                  (if withSystem && negb (empty (ResourceDir Opts))
                   then push_back [] (ResourceDir Opts) else []) l)
  end.
  { destruct (withSystem && negb (empty (ResourceDir Opts)));
      [|constructor].
    unfold push_back, push_back_if. simpl. apply subsequence_drop, subsequence_refl. }
  destruct (withSystem && true && negb (empty (ModuleCachePath Opts)));
    [|exact H].
  unfold push_back in *. do 2 apply subsequence_app_r. exact H.
Qed.

(** X17.  Asking for flags only inserts strings: what [CopyIncludePaths]
    gives without flags is what it gives with flags with some elements
    left out, in the same order. *)
Theorem CopyIncludePaths_flags_only_insert
        (Opts : HeaderSearchOptions) (incpaths : list string) (withSystem : bool)
        (plain flagged : list string) :
  CopyIncludePaths Opts incpaths withSystem false = Returned plain ->
  CopyIncludePaths Opts incpaths withSystem true = Returned flagged ->
  subsequence plain flagged.
Proof.
  unfold CopyIncludePaths.
  destruct (existsb invalid_entry (UserEntries Opts)) eqn:H.
  - rewrite copy_user_entries_invalid by assumption. discriminate.
  - rewrite !copy_user_entries_valid by assumption.
    rewrite (copy_system_options_app _ (_ ++ _) _ false).
    rewrite (copy_system_options_app _ (_ ++ _) _ true).
    intros [= <-] [= <-].
    apply subsequence_app; [apply subsequence_app|].
    + simpl. destruct (negb (Sysroot Opts =? "/")%string); simpl.
      * unfold push_back. rewrite <- app_assoc. simpl.
        rewrite <- (app_nil_r incpaths) at 1.
        apply subsequence_app; [apply subsequence_refl | apply subsequence_nil_l].
      * apply subsequence_refl.
    + induction (UserEntries Opts) as [|E entries IH]; simpl; [constructor|].
      apply orb_false_iff in H. destruct H as [_ H].
      apply subsequence_app; [apply entry_arguments_subsequence | auto].
    + apply copy_system_options_subsequence.
Qed.

Lemma CopyIncludePaths_flags_only_insert_witness :
  subsequence ["inc"; "/usr/include"; "/res"]%string
              ["-isysroot"; "/opt"; "-I"; "inc"; "-isystem"; "/usr/include";
               "-resource-dir"; "/res"; "-nostdinc"; "-v"]%string.
Proof.
  exact (CopyIncludePaths_flags_only_insert
    {| Sysroot := "/opt";
       UserEntries := [ {| Path := "inc"; Group := frontend.Angled; IsFramework := false |};
                        {| Path := "/usr/include"; Group := frontend.System; IsFramework := false |} ];
       ResourceDir := "/res"; ModuleCachePath := EmptyString;
       UseStandardSystemIncludes := false; UseStandardCXXIncludes := true;
       UseLibcxx := false; Verbose := true |}
    [] true _ _ ltac:(vm_compute; reflexivity) ltac:(vm_compute; reflexivity)).
Defined.

(** ** SplitPaths *)

Lemma length_drop n s : String.length (drop n s) = (String.length s - n)%nat.
Proof.
  revert s. induction n as [|n IH]; intros s; simpl.
  - lia.
  - destruct s as [|a s]; simpl; [reflexivity | apply IH].
Qed.

Lemma empty_iff s : empty s = true <-> s = EmptyString.
Proof. unfold empty. destruct s; simpl; split; congruence. Qed.

(** What is behind a separator that is not empty is shorter than the
    string. *)
Lemma split_shorter Separator s :
  Separator <> EmptyString ->
  empty (snd (split Separator s)) = false ->
  (String.length (snd (split Separator s)) < String.length s)%nat.
Proof.
  intros HS. induction s as [|c s IH]; [discriminate|].
  cbn [split]. destruct (String.prefix Separator (String c s)).
  - cbn [snd]. rewrite length_drop. intros _.
    destruct Separator; [congruence | simpl; lia].
  - destruct (split Separator s) as [LHS RHS]. cbn [snd] in *.
    intros H. specialize (IH H). simpl. lia.
Qed.

Section SplitPathsFacts.
Variable is_directory : string -> bool.

Lemma only_directories_refl Paths : only_directories is_directory Paths Paths.
Proof. exists []. now rewrite app_nil_r. Qed.

Lemma only_directories_push Paths Paths' p :
  is_directory p = true ->
  only_directories is_directory (push_back Paths p) Paths' -> only_directories is_directory Paths Paths'.
Proof.
  intros Hp (new & -> & Hn). exists (p :: new). unfold push_back.
  rewrite <- app_assoc. split; [reflexivity | now constructor].
Qed.

Lemma SplitPaths_loop_returns Delim EarlyOut fuel : forall PathStr Paths AllExisted,
  Delim <> EmptyString ->
  (String.length PathStr < fuel)%nat ->
  exists ex,
    SplitPaths_loop is_directory fuel PathStr Paths AllExisted EarlyOut Delim = Ok ex /\
    match ex with
    | EarlyReturn Paths' => only_directories is_directory Paths Paths'
    | LoopDone _ Paths' _ => only_directories is_directory Paths Paths'
    end.
Proof.
  induction fuel as [|fuel IH]; intros PathStr Paths AllExisted HD Hf; [lia|].
  cbn [SplitPaths_loop].
  destruct (empty (snd (split Delim PathStr))) eqn:E.
  - eexists. split; [reflexivity|]. apply only_directories_refl.
  - pose proof (split_shorter Delim PathStr HD E) as Hl.
    destruct (is_directory (fst (split Delim PathStr))) eqn:D; cbn [negb].
    + destruct (IH (snd (split Delim PathStr))
                   (push_back Paths (fst (split Delim PathStr))) AllExisted HD)
        as (ex & -> & H); [lia|].
      exists ex. split; [reflexivity|].
      destruct ex; eapply only_directories_push; eassumption.
    + destruct EarlyOut.
      * eexists. split; [reflexivity|]. apply only_directories_refl.
      * apply IH; [assumption | lia].
Qed.

End SplitPathsFacts.

(** X18.  With a separator that is not empty, [SplitPaths] returns, keeps
    what [Paths] held and appends nothing but directories, with or without
    [EarlyOut]. *)
Theorem SplitPaths_appends_directories
        (is_directory : string -> bool) (PathStr : string) (Paths : list string)
        (EarlyOut : bool) (Delim : string) :
  Delim <> EmptyString ->
  exists AllExisted Paths' new,
    SplitPaths is_directory PathStr Paths EarlyOut Delim = Ok (AllExisted, Paths') /\
    Paths' = Paths ++ new /\
    Forall (fun p => is_directory p = true) new.
Proof.
  intros HD. unfold SplitPaths.
  destruct (SplitPaths_loop_returns is_directory Delim EarlyOut
              (S (String.length PathStr)) PathStr Paths true HD)
    as (ex & -> & H); [lia|].
  destruct ex as [Paths'|Rest Paths' AllExisted].
  - destruct H as (new & -> & Hn).
    exists false, (Paths ++ new), new. auto.
  - destruct (is_directory Rest) eqn:D.
    + destruct H as (new & -> & Hn).
      exists AllExisted, (push_back (Paths ++ new) Rest), (new ++ [Rest]).
      split; [reflexivity|]. unfold push_back. rewrite app_assoc.
      split; [reflexivity|]. apply Forall_app. split; [assumption|].
      constructor; [assumption | constructor].
    + destruct H as (new & -> & Hn).
      exists false, (Paths ++ new), new. auto.
Qed.

Lemma SplitPaths_appends_directories_witness :
  exists AllExisted Paths' new,
    SplitPaths (fun p => String.eqb p "/usr/lib") "/usr/lib:/nowhere"
               ["/lib"%string] false ":" = Ok (AllExisted, Paths') /\
    Paths' = ["/lib"%string] ++ new /\
    Forall (fun p => String.eqb p "/usr/lib" = true) new.
Proof.
  apply (SplitPaths_appends_directories
           (fun p => String.eqb p "/usr/lib") "/usr/lib:/nowhere"%string
           ["/lib"%string] false ":"%string).
  discriminate.
Defined.

Section SplitPieces.
Variable is_directory : string -> bool.
Variable c : ascii.

Let Delim : string := String c EmptyString.

Lemma prefix_Delim a s : String.prefix Delim (String a s) = (a =? c)%char.
Proof.
  unfold Delim. cbn [String.prefix].
  destruct (ascii_dec c a) as [E | Hne].
  - subst a. rewrite Ascii.eqb_refl. now destruct s.
  - symmetry. apply Ascii.eqb_neq. congruence.
Qed.

Lemma split_at_delimiter p rest :
  occurs c p = false -> split Delim (p ++ String c rest) = (p, rest).
Proof.
  induction p as [|a p IH]; intros H.
  - cbn [append split]. rewrite prefix_Delim, Ascii.eqb_refl. reflexivity.
  - simpl in H. apply orb_false_iff in H. destruct H as [Ha Hp].
    cbn [append split]. rewrite prefix_Delim, Ha, (IH Hp). reflexivity.
Qed.

Lemma split_no_delimiter p :
  occurs c p = false -> split Delim p = (p, EmptyString).
Proof.
  induction p as [|a p IH]; intros H; [reflexivity|].
  simpl in H. apply orb_false_iff in H. destruct H as [Ha Hp].
  cbn [split]. rewrite prefix_Delim, Ha, (IH Hp). reflexivity.
Qed.

Lemma split_trailing_delimiter p :
  occurs c p = false -> split Delim (p ++ Delim) = (p, EmptyString).
Proof. intros H. unfold Delim. now apply split_at_delimiter. Qed.

Lemma join_pieces_cons p pieces :
  pieces <> [] ->
  join_pieces c (p :: pieces) = (p ++ String c (join_pieces c pieces))%string.
Proof. destruct pieces; [congruence | reflexivity]. Qed.

Lemma length_append s1 s2 :
  String.length (s1 ++ s2) = (String.length s1 + String.length s2)%nat.
Proof. induction s1; simpl; congruence. Qed.

(** The loop without [EarlyOut], on pieces that hold no delimiter, followed
    by a last part [t] behind whose split nothing is left. *)
Lemma SplitPaths_loop_pieces init : forall t fuel Paths AllExisted,
  Forall (fun p => occurs c p = false) init ->
  snd (split Delim t) = EmptyString ->
  (init <> [] -> t <> EmptyString) ->
  (String.length (join_pieces c (init ++ [t])) < fuel)%nat ->
  SplitPaths_loop is_directory fuel (join_pieces c (init ++ [t])) Paths
                  AllExisted false Delim =
  Ok (LoopDone t (Paths ++ filter is_directory init)
               (AllExisted && forallb is_directory init)).
Proof.
  induction init as [|p init IH]; intros t fuel Paths AllExisted Hc Ht Hne Hf.
  - simpl in *. destruct fuel as [|fuel]; [lia|]. cbn [SplitPaths_loop].
    rewrite Ht. cbn. now rewrite app_nil_r, andb_true_r.
  - inversion Hc as [|? ? Hp Hc']; subst.
    assert (Hnil : init ++ [t] <> []) by (destruct init; discriminate).
    cbn [app] in *. rewrite (join_pieces_cons p _ Hnil) in *.
    destruct fuel as [|fuel]; [lia|]. cbn [SplitPaths_loop].
    rewrite (split_at_delimiter p _ Hp). cbn [fst snd].
    assert (Hrest : empty (join_pieces c (init ++ [t])) = false).
    { destruct init as [|q init].
      - simpl. destruct t; [exfalso; apply Hne; [discriminate | reflexivity] | reflexivity].
      - assert (H2 : init ++ [t] <> []) by (destruct init; discriminate).
        cbn [app]. rewrite (join_pieces_cons q _ H2).
        destruct q; reflexivity. }
    rewrite Hrest.
    rewrite length_append in Hf. simpl in Hf.
    assert (Hne' : init <> [] -> t <> EmptyString).
    { intros H. apply Hne. discriminate. }
    destruct (is_directory p) eqn:D; cbn [negb filter forallb].
    + rewrite IH by (auto; lia). unfold push_back. rewrite <- app_assoc.
      rewrite D. reflexivity.
    + rewrite IH by (auto; lia). rewrite D, andb_false_r. reflexivity.
Qed.

Lemma SplitPaths_pieces init t Paths :
  Forall (fun p => occurs c p = false) init ->
  snd (split Delim t) = EmptyString ->
  (init <> [] -> t <> EmptyString) ->
  SplitPaths is_directory (join_pieces c (init ++ [t])) Paths false Delim =
  Ok (forallb is_directory (init ++ [t]),
      Paths ++ filter is_directory (init ++ [t])).
Proof.
  intros Hc Ht Hne. unfold SplitPaths.
  rewrite SplitPaths_loop_pieces by (auto; lia). cbn [andb].
  rewrite forallb_app, filter_app. cbn [forallb filter].
  destruct (is_directory t).
  - unfold push_back. rewrite <- app_assoc, andb_true_r. reflexivity.
  - rewrite andb_false_r, app_nil_r. reflexivity.
Qed.

(** The loop with [EarlyOut] up to the first piece that is no directory. *)
Lemma SplitPaths_loop_early good : forall bad rest fuel Paths AllExisted,
  Forall (fun p => occurs c p = false) (good ++ [bad]) ->
  Forall (fun p => is_directory p = true) good ->
  is_directory bad = false ->
  rest <> EmptyString ->
  (String.length (join_pieces c (good ++ [bad; rest])) < fuel)%nat ->
  SplitPaths_loop is_directory fuel (join_pieces c (good ++ [bad; rest])) Paths
                  AllExisted true Delim =
  Ok (EarlyReturn (Paths ++ good)).
Proof.
  induction good as [|p good IH]; intros bad rest fuel Paths AllExisted Hc Hg Hb Hr Hf.
  - cbn [app join_pieces] in *. inversion Hc as [|? ? Hbc _]; subst.
    destruct fuel as [|fuel]; [lia|]. cbn [SplitPaths_loop].
    rewrite (split_at_delimiter bad _ Hbc). cbn [fst snd].
    destruct rest; [congruence|]. cbn. rewrite Hb. cbn. now rewrite app_nil_r.
  - inversion Hc as [|? ? Hp Hc']; subst. inversion Hg as [|? ? Hd Hg']; subst.
    assert (Hnil : good ++ [bad; rest] <> []) by (destruct good; discriminate).
    cbn [app] in *. rewrite (join_pieces_cons p _ Hnil) in *.
    destruct fuel as [|fuel]; [lia|]. cbn [SplitPaths_loop].
    rewrite (split_at_delimiter p _ Hp). cbn [fst snd].
    assert (Hrest : empty (join_pieces c (good ++ [bad; rest])) = false).
    { destruct good as [|q good]; cbn [app].
      - cbn [join_pieces]. destruct bad; reflexivity.
      - assert (H2 : good ++ [bad; rest] <> []) by (destruct good; discriminate).
        rewrite (join_pieces_cons q _ H2). destruct q; reflexivity. }
    rewrite Hrest, Hd. cbn [negb].
    rewrite length_append in Hf. simpl in Hf.
    rewrite IH by (auto; lia). unfold push_back. rewrite <- app_assoc. reflexivity.
Qed.

End SplitPieces.

(** X19.  Pieces that hold no delimiter, joined by a one-character
    delimiter, the last piece not empty when there are several, are split
    back: without [EarlyOut] the pieces that are directories are appended
    to [Paths] in their order, and the flag says whether all of them
    were. *)
Theorem SplitPaths_joined_pieces
        (is_directory : string -> bool) (c : ascii)
        (init : list string) (last : string) (Paths : list string) :
  Forall (fun p => occurs c p = false) (init ++ [last]) ->
  (init <> [] -> last <> EmptyString) ->
  SplitPaths is_directory (join_pieces c (init ++ [last])) Paths false
             (String c EmptyString) =
  Ok (forallb is_directory (init ++ [last]),
      Paths ++ filter is_directory (init ++ [last])).
Proof.
  intros Hc Hne. apply Forall_app in Hc. destruct Hc as [Hi Hl].
  inversion Hl as [|? ? Hlast _]; subst.
  apply SplitPaths_pieces; [assumption | | assumption].
  now rewrite split_no_delimiter.
Qed.

Lemma SplitPaths_joined_pieces_witness :
  SplitPaths (fun p => negb (String.eqb p "/nowhere")) "/usr/lib:/nowhere:/lib"
             [] false ":" =
  Ok (false, ["/usr/lib"; "/lib"]%string).
Proof.
  apply (SplitPaths_joined_pieces (fun p => negb (String.eqb p "/nowhere")) ":"%char
           ["/usr/lib"; "/nowhere"]%string "/lib"%string []).
  - repeat constructor.
  - discriminate.
Defined.

(** X20.  With [EarlyOut], the first piece that is no directory, when
    something follows it, ends the call with [false]: [Paths] has received
    the pieces before it, and what follows is not looked at. *)
Theorem SplitPaths_early_out
        (is_directory : string -> bool) (c : ascii)
        (good : list string) (bad rest : string) (Paths : list string) :
  Forall (fun p => occurs c p = false) (good ++ [bad]) ->
  Forall (fun p => is_directory p = true) good ->
  is_directory bad = false ->
  rest <> EmptyString ->
  SplitPaths is_directory (join_pieces c (good ++ [bad; rest])) Paths true
             (String c EmptyString) =
  Ok (false, Paths ++ good).
Proof.
  intros Hc Hg Hb Hr. unfold SplitPaths.
  now rewrite SplitPaths_loop_early by (auto; lia).
Qed.

Lemma SplitPaths_early_out_witness :
  SplitPaths (fun p => negb (String.eqb p "/nowhere")) "/usr/lib:/nowhere:/lib:/opt"
             [] true ":" =
  Ok (false, ["/usr/lib"]%string).
Proof.
  apply (SplitPaths_early_out (fun p => negb (String.eqb p "/nowhere")) ":"%char
           ["/usr/lib"]%string "/nowhere"%string "/lib:/opt"%string []).
  - repeat constructor.
  - repeat constructor.
  - reflexivity.
  - discriminate.
Defined.

(** X21.  A delimiter at the end of the string is not taken off: the last
    piece is tested, and appended, together with it. *)
Theorem SplitPaths_trailing_delimiter
        (is_directory : string -> bool) (c : ascii)
        (init : list string) (last : string) (Paths : list string) :
  Forall (fun p => occurs c p = false) (init ++ [last]) ->
  let last' := (last ++ String c EmptyString)%string in
  SplitPaths is_directory (join_pieces c (init ++ [last'])) Paths false
             (String c EmptyString) =
  Ok (forallb is_directory (init ++ [last']),
      Paths ++ filter is_directory (init ++ [last'])).
Proof.
  intros Hc last'. apply Forall_app in Hc. destruct Hc as [Hi Hl].
  inversion Hl as [|? ? Hlast _]; subst.
  apply SplitPaths_pieces; [assumption | |].
  - unfold last'. now rewrite split_trailing_delimiter.
  - intros _. unfold last'. destruct last; discriminate.
Qed.

Lemma SplitPaths_trailing_delimiter_witness :
  SplitPaths (fun p => String.eqb p "/usr/lib" || String.eqb p "/lib")
             "/usr/lib:/lib:" [] false ":" =
  Ok (false, ["/usr/lib"]%string).
Proof.
  apply (SplitPaths_trailing_delimiter
           (fun p => String.eqb p "/usr/lib" || String.eqb p "/lib") ":"%char
           ["/usr/lib"]%string "/lib"%string []).
  repeat constructor.
Defined.

(** * PlatformPosix.cpp *)

(** ** The round-robin cache *)

Module CacheFacts.
Import Cache.

Lemma well_formed_threadCache : well_formed threadCache.
Proof. unfold well_formed, threadCache, size. simpl. split; [reflexivity | lia]. Qed.

Lemma well_formed_cases C :
  well_formed C ->
  exists a0 a1 a2 a3 a4 a5 a6 a7,
    lines C = [a0; a1; a2; a3; a4; a5; a6; a7] /\ (mostRecent C < 8)%nat.
Proof.
  intros [Hl Hm]. unfold size in *. destruct C as [l m]. simpl in *.
  do 8 (destruct l as [|? l]; [discriminate|]).
  destruct l; [|discriminate]. repeat eexists. exact Hm.
Qed.

Lemma push_well_formed C P : well_formed C -> well_formed (push C P).
Proof.
  intros H. destruct (well_formed_cases C H) as (a0&a1&a2&a3&a4&a5&a6&a7&Hl&Hm).
  unfold well_formed, push, size. rewrite Hl. split.
  - destruct (mostRecent C) as [|[|[|[|[|[|[|[|m]]]]]]]]; try reflexivity; lia.
  - apply Nat.mod_upper_bound. discriminate.
Qed.

Lemma pushes_well_formed Ps : forall C, well_formed C -> well_formed (pushes C Ps).
Proof.
  induction Ps as [|P Ps IH]; intros C H; [exact H|].
  apply IH. now apply push_well_formed.
Qed.

(** A push drops the oldest entry and adds the new one as the youngest. *)
Lemma window_push C P :
  well_formed C -> window (push C P) = tl (window C) ++ [P].
Proof.
  intros H. destruct (well_formed_cases C H) as (a0&a1&a2&a3&a4&a5&a6&a7&Hl&Hm).
  unfold window, push, size. simpl. rewrite Hl.
  destruct (mostRecent C) as [|[|[|[|[|[|[|[|m]]]]]]]]; try reflexivity; lia.
Qed.

Lemma window_length C : well_formed C -> List.length (window C) = 8%nat.
Proof.
  intros [Hl Hm]. unfold window, size in *.
  rewrite length_app, length_skipn, length_firstn. lia.
Qed.

Lemma In_window C X : In X (window C) <-> In X (lines C).
Proof.
  unfold window. pose proof (firstn_skipn (mostRecent C) (lines C)) as E.
  split; intros H.
  - apply in_app_iff in H. rewrite <- E. apply in_app_iff. tauto.
  - rewrite <- E in H. apply in_app_iff in H. apply in_app_iff. tauto.
Qed.

Lemma contains_window C X : contains C X = true <-> In X (window C).
Proof.
  rewrite In_window. unfold contains. rewrite existsb_exists. split.
  - intros (x & Hin & E). apply Z.eqb_eq in E. now subst x.
  - intros H. exists X. split; [assumption | apply Z.eqb_refl].
Qed.

Lemma window_pushes Ps : forall C,
  well_formed C -> window (pushes C Ps) = fold_left fifo Ps (window C).
Proof.
  induction Ps as [|P Ps IH]; intros C H; [reflexivity|].
  simpl. rewrite IH by now apply push_well_formed.
  now rewrite window_push.
Qed.

Lemma fold_fifo Ps : forall w,
  List.length w = 8%nat ->
  fold_left fifo Ps w = skipn (List.length Ps) (w ++ Ps).
Proof.
  induction Ps as [|P Ps IH]; intros w Hw; simpl.
  - now rewrite app_nil_r.
  - destruct w as [|a w]; [discriminate|].
    rewrite IH.
    + unfold fifo. simpl. now rewrite <- app_assoc.
    + unfold fifo. simpl in *. rewrite length_app. simpl. lia.
Qed.

Lemma window_after Ps C :
  well_formed C ->
  window (pushes C Ps) = skipn (List.length Ps) (window C ++ Ps).
Proof.
  intros H. rewrite window_pushes by assumption.
  apply fold_fifo. now apply window_length.
Qed.

End CacheFacts.

(** X22.  The cache is first in, first out: once eight or more addresses
    have been pushed, it holds exactly the last eight, whatever was pushed
    before them. *)
Theorem Cache_holds_last_eight (older recent : list Z) (X : Z) :
  List.length recent = 8%nat ->
  Cache.contains (Cache.pushes Cache.threadCache (older ++ recent)) X = true <->
  In X recent.
Proof.
  intros Hr. rewrite CacheFacts.contains_window.
  rewrite CacheFacts.window_after by apply CacheFacts.well_formed_threadCache.
  rewrite app_assoc, skipn_app.
  rewrite skipn_all2 by (rewrite !length_app; simpl; lia).
  rewrite !length_app. simpl List.length.
  replace (List.length older + List.length recent - (8 + List.length older))%nat
    with O by lia.
  reflexivity.
Qed.

Lemma Cache_holds_last_eight_witness :
  Cache.contains (Cache.pushes Cache.threadCache ([100; 200] ++ [1; 2; 3; 4; 5; 6; 7; 8])) 100
  = true <-> In 100 [1; 2; 3; 4; 5; 6; 7; 8].
Proof.
  exact (Cache_holds_last_eight [100; 200] [1; 2; 3; 4; 5; 6; 7; 8] 100 eq_refl).
Defined.

(** X23.  Before eight addresses have been pushed, the cache holds the
    pushed addresses and the null pointer its lines started with. *)
Theorem Cache_partly_filled (Ps : list Z) (X : Z) :
  (List.length Ps < 8)%nat ->
  Cache.contains (Cache.pushes Cache.threadCache Ps) X = true <->
  X = 0 \/ In X Ps.
Proof.
  intros Hl. rewrite CacheFacts.contains_window.
  rewrite CacheFacts.window_after by apply CacheFacts.well_formed_threadCache.
  rewrite skipn_app. rewrite in_app_iff.
  change (Cache.window Cache.threadCache) with (repeat 0 8).
  rewrite repeat_length.
  replace (List.length Ps - 8)%nat with O by lia. simpl skipn at 2.
  split.
  - intros [H|H]; [left | now right].
    assert (H' : In X (repeat 0 8)).
    { rewrite <- (firstn_skipn (List.length Ps) (repeat 0 8)).
      apply in_app_iff. now right. }
    now apply repeat_spec in H'.
  - intros [->|H]; [left | now right].
    do 8 (destruct Ps as [|? Ps]; [simpl; tauto|]). simpl in Hl. lia.
Qed.

Lemma Cache_partly_filled_witness :
  Cache.contains (Cache.pushes Cache.threadCache [100; 200]) 0 = true <->
  0 = 0 \/ In 0 [100; 200].
Proof.
  exact (Cache_partly_filled [100; 200] 0 ltac:(simpl; lia)).
Defined.

(** X24.  An address that was pushed is still in the cache after up to
    seven further pushes. *)
Theorem Cache_keeps_for_seven_pushes (before later : list Z) (Q : Z) :
  (List.length later <= 7)%nat ->
  Cache.contains
    (Cache.pushes (Cache.push (Cache.pushes Cache.threadCache before) Q) later) Q
  = true.
Proof.
  intros Hl. apply CacheFacts.contains_window.
  pose proof (CacheFacts.pushes_well_formed before _
                CacheFacts.well_formed_threadCache) as Hw.
  rewrite CacheFacts.window_after by now apply CacheFacts.push_well_formed.
  rewrite CacheFacts.window_push by assumption.
  pose proof (CacheFacts.window_length _ Hw) as Hlen.
  destruct (Cache.window (Cache.pushes Cache.threadCache before)) as [|a w];
    [discriminate|].
  simpl tl. simpl in Hlen.
  rewrite <- app_assoc. rewrite skipn_app. apply in_app_iff.
  destruct (Nat.le_gt_cases (List.length later) (List.length w)) as [H|H].
  - right. replace (List.length later - List.length w)%nat with O by lia.
    simpl. now left.
  - lia.
Qed.

Lemma Cache_keeps_for_seven_pushes_witness :
  Cache.contains
    (Cache.pushes (Cache.push (Cache.pushes Cache.threadCache [9; 9; 9]) 42)
                  [1; 2; 3; 4; 5; 6; 7]) 42 = true.
Proof.
  exact (Cache_keeps_for_seven_pushes [9; 9; 9] [1; 2; 3; 4; 5; 6; 7] 42
           ltac:(simpl; lia)).
Defined.

(** ** IsMemoryValid *)

Lemma contains_push C P :
  Cache.well_formed C -> Cache.contains (Cache.push C P) P = true.
Proof.
  intros H. apply CacheFacts.contains_window.
  rewrite CacheFacts.window_push by assumption.
  apply in_app_iff. right. now left.
Qed.

(** X25.  A positive answer is remembered: after [IsMemoryValid] has
    answered [true] for an address, the address is in the cache, and the
    next call for it answers [true] without a look at the probe, whatever
    the probe would say by then. *)
Theorem IsMemoryValid_remembers
        (probe probe' : Z -> WriteResult) (Ps : list Z) (P : Z) (C' : Cache.Cache) :
  IsMemoryValid probe (Cache.pushes Cache.threadCache Ps) P = Ok (true, C') ->
  Cache.contains C' P = true /\
  IsMemoryValid probe' C' P = Ok (true, C').
Proof.
  pose proof (CacheFacts.pushes_well_formed Ps _
                CacheFacts.well_formed_threadCache) as Hw.
  unfold IsMemoryValid.
  destruct (Cache.contains (Cache.pushes Cache.threadCache Ps) P) eqn:E.
  - intros [= <-]. rewrite E. auto.
  - destruct (probe P); try discriminate. intros [= <-].
    rewrite (contains_push _ P Hw). auto.
Qed.

Lemma IsMemoryValid_remembers_witness :
  Cache.contains (Cache.push (Cache.pushes Cache.threadCache [7]) 42) 42 = true /\
  IsMemoryValid (fun _ => Efault)
                (Cache.push (Cache.pushes Cache.threadCache [7]) 42) 42 =
  Ok (true, Cache.push (Cache.pushes Cache.threadCache [7]) 42).
Proof.
  exact (IsMemoryValid_remembers (fun _ => Wrote) (fun _ => Efault) [7] 42 _ eq_refl).
Defined.

(** X26.  As long as fewer than eight addresses have been pushed, a null
    line is left in the cache, and [IsMemoryValid] answers [true] for the
    null pointer without probing it. *)
Theorem IsMemoryValid_null_pointer (probe : Z -> WriteResult) (Ps : list Z) :
  (List.length Ps < 8)%nat ->
  IsMemoryValid probe (Cache.pushes Cache.threadCache Ps) 0 =
  Ok (true, Cache.pushes Cache.threadCache Ps).
Proof.
  intros Hl. unfold IsMemoryValid.
  assert (E : Cache.contains (Cache.pushes Cache.threadCache Ps) 0 = true).
  { apply CacheFacts.contains_window.
    rewrite CacheFacts.window_after by apply CacheFacts.well_formed_threadCache.
    rewrite skipn_app. apply in_app_iff. left.
    change (Cache.window Cache.threadCache) with (repeat 0 8).
    do 8 (destruct Ps as [|? Ps]; [simpl; tauto|]). simpl in Hl. lia. }
  now rewrite E.
Qed.

Lemma IsMemoryValid_null_pointer_witness :
  IsMemoryValid (fun _ => Efault) (Cache.pushes Cache.threadCache [100; 200]) 0 =
  Ok (true, Cache.pushes Cache.threadCache [100; 200]).
Proof.
  exact (IsMemoryValid_null_pointer (fun _ => Efault) [100; 200] ltac:(simpl; lia)).
Defined.
